(** * tests_to_html.py : a shallow embedding of the MaterialX test-report script

    The script [src/python/MaterialXTest/tests_to_html.py] walks a directory
    for rendered images [*<sourcelang>.png], derives the names of the images
    of one or two destination languages, optionally asks Pillow for pixel
    differences ([createDiff]) and writes an HTML report.

    The embedding follows the source function by function:
    - Python [str] values are Rocq [string]s; Python [None] where a path may
      be [None] is [option string];
    - the filesystem is a tree of directories and files, with the
      permission to change each of them; paths are resolved the POSIX way
      relative to a current working directory;
    - [main] and [createDiff] run in a state and exception monad [M]; the
      state holds the filesystem, the lines printed to stdout, the chunks
      written to the report file (each tagged with the source line of its
      [fh.write]) and, as ghost state, the output path of every [createDiff]
      call. *)

From Stdlib Require Import String Ascii List Bool ZArith NArith Lia.
From Stdlib Require Import RelationClasses.
Import ListNotations.
Open Scope list_scope.
Open Scope string_scope.

(* ------------------------------------------------------------------ *)
(** ** Python string operations *)

Module Py.

Definition chars (s : string) : list ascii := list_ascii_of_string s.
Definition unchars (l : list ascii) : string := string_of_list_ascii l.

(** [s.endswith(suf)] *)
Definition endswith (s suf : string) : bool :=
  let l := chars s in
  let m := chars suf in
  (length m <=? length l)%nat
  && String.eqb (unchars (skipn (length l - length m) l)) suf.

(** [s.startswith(pre)] *)
Definition startswith (s pre : string) : bool :=
  String.eqb (unchars (firstn (length (chars pre)) (chars s))) pre.

(** [s[:-n]] (and [s[0:-n]]) for [n > 0] *)
Definition slice_neg (s : string) (n : nat) : string :=
  let l := chars s in unchars (firstn (length l - n) l).

(** Truthiness of an optional string: [None] and [""] are false. *)
Definition truthy (p : option string) : bool :=
  match p with
  | None => false
  | Some s => negb (String.eqb s "")
  end.

(** [str(n)] for a Python [int] *)
Fixpoint digits (fuel : nat) (n : N) (acc : string) : string :=
  match fuel with
  | O => acc
  | S f =>
      let acc' := String (ascii_of_N (48 + N.modulo n 10)) acc in
      if (N.div n 10 =? 0)%N then acc' else digits f (N.div n 10) acc'
  end.

Definition str_N (n : N) : string := digits (S (N.size_nat n)) n "".

Definition str_int (z : Z) : string :=
  if (z <? 0)%Z then "-" ++ str_N (Z.to_N (- z)) else str_N (Z.to_N z).

(** [s.split('/')] *)
Fixpoint split_slash_aux (l : list ascii) (cur : list ascii) : list string :=
  match l with
  | [] => [unchars (rev cur)]
  | c :: l' =>
      if Ascii.eqb c "/"%char then unchars (rev cur) :: split_slash_aux l' []
      else split_slash_aux l' (c :: cur)
  end.

Definition split_slash (s : string) : list string := split_slash_aux (chars s) [].

(** ['/'.join(xs)] *)
Definition join_slash (xs : list string) : string := String.concat "/" xs.

End Py.

(* ------------------------------------------------------------------ *)
(** ** posixpath *)

Module PosixPath.
Import Py.

(** [os.path.isabs] *)
Definition isabs (p : string) : bool := startswith p "/".

(** [os.path.join(a, b)] with two components *)
Definition join (a b : string) : string :=
  if startswith b "/" then b
  else if String.eqb a "" || endswith a "/" then a ++ b
  else a ++ "/" ++ b.

(** [os.path.normpath] *)
Definition normpath_step (initial : nat) (acc : list string) (comp : string)
  : list string :=
  if String.eqb comp "" || String.eqb comp "." then acc
  else if negb (String.eqb comp "..")
          || ((initial =? 0)%nat && match acc with [] => true | _ => false end)
          || match acc with top :: _ => String.eqb top ".." | [] => false end
  then comp :: acc
  else match acc with [] => [] | _ :: acc' => acc' end.

Definition normpath (p : string) : string :=
  if String.eqb p "" then "."
  else
    let initial :=
      if startswith p "/" then
        if startswith p "//" && negb (startswith p "///") then 2%nat else 1%nat
      else 0%nat in
    let comps := rev (fold_left (normpath_step initial) (split_slash p) []) in
    let body := join_slash comps in
    let path := (if (initial =? 2)%nat then "//" else if (initial =? 1)%nat then "/" else "")
                ++ body in
    if String.eqb path "" then "." else path.

End PosixPath.

(* ------------------------------------------------------------------ *)
(** ** The filesystem *)

Module FS.
Import Py PosixPath.

(** The content of a regular file, as far as Pillow is concerned: an image
    of a given size, or bytes Pillow cannot decode. *)
Inductive fdata := FImg (w h : nat) | FRaw.

Inductive node :=
| File (mtime : Z) (d : fdata)
| Dir (es : entries)
with entries :=
| ENil
| ECons (name : string) (n : node) (rest : entries).

Record fsys := mkfs {
  root : entries;          (** the contents of [/] *)
  cwd : list string;       (** [os.getcwd()] as components *)
  disk_full : bool;        (** writes create the file and then fail *)
  writable : list string -> bool
    (** whether the process may change the directory at these components
        (create or remove its entries) or truncate the regular file there;
        on a read-only filesystem nothing is *)
}.

(** every directory and file may be changed *)
Definition all_writable : list string -> bool := fun _ => true.

Fixpoint find_es (c : string) (es : entries) : option node :=
  match es with
  | ENil => None
  | ECons n x rest => if String.eqb n c then Some x else find_es c rest
  end.

(** replace the first entry named [c], or add one at the end *)
Fixpoint set_es (c : string) (x : node) (es : entries) : entries :=
  match es with
  | ENil => ECons c x ENil
  | ECons n y rest =>
      if String.eqb n c then ECons n x rest else ECons n y (set_es c x rest)
  end.

Fixpoint drop_es (c : string) (es : entries) : entries :=
  match es with
  | ENil => ENil
  | ECons n y rest =>
      if String.eqb n c then drop_es c rest else ECons n y (drop_es c rest)
  end.

(** The component list a path names: absolute paths from [/], relative
    ones from the working directory; [""] and ["."] components are
    skipped and [".."] goes one level up. *)
Definition canon_step (acc : list string) (c : string) : list string :=
  if String.eqb c "" || String.eqb c "." then acc
  else if String.eqb c ".." then removelast acc
  else (acc ++ [c])%list.

Definition canon (cwd : list string) (p : string) : list string :=
  fold_left canon_step (split_slash p) (if isabs p then [] else cwd).

Fixpoint lookup_path (es : entries) (p : list string) : option node :=
  match p with
  | [] => Some (Dir es)
  | c :: rest =>
      match find_es c es with
      | Some (Dir es') => lookup_path es' rest
      | Some x => match rest with [] => Some x | _ :: _ => None end
      | None => None
      end
  end.

(** [os.remove] in the tree: only a regular file can be removed *)
Fixpoint remove_path (es : entries) (p : list string) : option entries :=
  match p with
  | [] => None
  | c :: rest =>
      match rest with
      | [] =>
          match find_es c es with
          | Some (File _ _) => Some (drop_es c es)
          | _ => None
          end
      | _ :: _ =>
          match find_es c es with
          | Some (Dir es') =>
              option_map (fun es'' => set_es c (Dir es'') es) (remove_path es' rest)
          | _ => None
          end
      end
  end.

(** creating or truncating a regular file: the parent must be a directory
    and the target must not be one *)
Fixpoint write_path (es : entries) (p : list string) (x : node) : option entries :=
  match p with
  | [] => None
  | c :: rest =>
      match rest with
      | [] =>
          match find_es c es with
          | Some (Dir _) => None
          | _ => Some (set_es c x es)
          end
      | _ :: _ =>
          match find_es c es with
          | Some (Dir es') =>
              option_map (fun es'' => set_es c (Dir es'') es) (write_path es' rest x)
          | _ => None
          end
      end
  end.

(** [os.stat]; the empty path names nothing *)
Definition stat (f : fsys) (p : string) : option node :=
  if String.eqb p "" then None else lookup_path (root f) (canon (cwd f) p).

Definition exists_ (f : fsys) (p : string) : bool :=
  match stat f p with Some _ => true | None => false end.

Definition isfile (f : fsys) (p : string) : bool :=
  match stat f p with Some (File _ _) => true | _ => false end.

(** [os.remove]: the entry is removed from its directory, which must be
    writable ([PermissionError] otherwise) *)
Definition remove (f : fsys) (p : string) : option fsys :=
  if String.eqb p "" then None
  else
    let q := canon (cwd f) p in
    if writable f (removelast q)
    then option_map (fun r => mkfs r (cwd f) (disk_full f) (writable f))
           (remove_path (root f) q)
    else None.

(** opening for writing: an existing regular file must be writable, a new
    one needs a writable directory *)
Definition write (f : fsys) (p : string) (x : node) : option fsys :=
  if String.eqb p "" then None
  else
    let q := canon (cwd f) p in
    let allowed := match lookup_path (root f) q with
                   | Some (File _ _) => writable f q
                   | _ => writable f (removelast q)
                   end in
    if allowed
    then option_map (fun r => mkfs r (cwd f) (disk_full f) (writable f))
           (write_path (root f) q x)
    else None.

(** [os.getcwd()] *)
Definition getcwd (f : fsys) : string := "/" ++ join_slash (cwd f).

(** names of the non-directories of a directory, in listing order *)
Fixpoint files_of (es : entries) : list string :=
  match es with
  | ENil => []
  | ECons n (File _ _) rest => n :: files_of rest
  | ECons _ (Dir _) rest => files_of rest
  end.

(** [os.walk(top)] (top-down), as the [(dirpath, filenames)] pairs it
    yields: a directory, then each subdirectory in listing order, its path
    being [os.path.join(dirpath, name)]. *)
Fixpoint walk_node (top : string) (x : node) : list (string * list string) :=
  match x with
  | File _ _ => []
  | Dir es => (top, files_of es) :: walk_subdirs top es
  end
with walk_subdirs (top : string) (es : entries) : list (string * list string) :=
  match es with
  | ENil => []
  | ECons d x rest =>
      (match x with
      | Dir _ => walk_node (join top d) x
      | File _ _ => []
      end ++ walk_subdirs top rest)%list
  end.

(** A missing or non-directory [top] yields nothing ([onerror] is [None]). *)
Definition walk (f : fsys) (top : string) : list (string * list string) :=
  match stat f top with
  | Some (Dir es) => walk_node top (Dir es)
  | _ => []
  end.

End FS.

(* ------------------------------------------------------------------ *)
(** ** The state and exception monad of a run *)

Module Run.
Import Py PosixPath FS.

(** The exceptions the script can raise. *)
Inductive exn := UnboundLocalError | TypeError | OSError.

Inductive res (A : Type) := Ok (x : A) | Exc (e : exn).
Arguments Ok {A} x.
Arguments Exc {A} e.

Record st := mkst {
  fs : fsys;
  logs : list string;               (** lines printed to stdout *)
  out : list (nat * string);        (** [fh.write] chunks, with their source line *)
  diff_calls : list string          (** ghost: [imageDiffPath] of each [createDiff] call *)
}.

Definition M (A : Type) : Type := st -> res A * st.

Definition ret {A} (x : A) : M A := fun s => (Ok x, s).
Definition raise {A} (e : exn) : M A := fun s => (Exc e, s).
Definition bind {A B} (m : M A) (k : A -> M B) : M B :=
  fun s => match m s with
           | (Ok x, s') => k x s'
           | (Exc e, s') => (Exc e, s')
           end.
(** [try: m except Exception: h] *)
Definition try_except {A} (m : M A) (h : exn -> M A) : M A :=
  fun s => match m s with
           | (Exc e, s') => h e s'
           | r => r
           end.

Notation "'let*' x ':=' m 'in' k" := (bind m (fun x => k))
  (at level 200, x name, m at level 100, k at level 200).
Notation "m ;; k" := (bind m (fun _ => k)) (at level 100, right associativity).

Definition get_fs : M fsys := fun s => (Ok (fs s), s).
Definition put_fs (f : fsys) : M unit :=
  fun s => (Ok tt, mkst f (logs s) (out s) (diff_calls s)).
Definition print (msg : string) : M unit :=
  fun s => (Ok tt, mkst (fs s) (logs s ++ [msg])%list (out s) (diff_calls s)).
Definition fh_write (line : nat) (txt : string) : M unit :=
  fun s => (Ok tt, mkst (fs s) (logs s) (out s ++ [(line, txt)])%list (diff_calls s)).
Definition ghost_diff (p : string) : M unit :=
  fun s => (Ok tt, mkst (fs s) (logs s) (out s) (diff_calls s ++ [p])%list).

(** [os.path.exists]; [None] is refused by [os.stat] with a [TypeError] *)
Definition path_exists (p : option string) : M bool :=
  match p with
  | None => raise TypeError
  | Some q => let* f := get_fs in ret (exists_ f q)
  end.

(** [os.path.isfile] *)
Definition path_isfile (p : option string) : M bool :=
  match p with
  | None => raise TypeError
  | Some q => let* f := get_fs in ret (isfile f q)
  end.

(** [os.path.getmtime]; only called on regular files by the script *)
Definition getmtime (p : option string) : M Z :=
  match p with
  | None => raise TypeError
  | Some q =>
      let* f := get_fs in
      match stat f q with
      | Some (File m _) => ret m
      | Some (Dir _) => ret 0%Z
      | None => raise OSError
      end
  end.

Definition os_remove (p : string) : M unit :=
  let* f := get_fs in
  match remove f p with
  | Some f' => put_fs f'
  | None => raise OSError
  end.

(** [a + b] where [b] may be [None] *)
Definition str_concat (a : string) (b : option string) : M string :=
  match b with
  | None => raise TypeError
  | Some b' => ret (a ++ b')
  end.

(** [Image.open(p).convert('RGB')], giving the size of the image *)
Definition image_open_convert (p : option string) : M (nat * nat) :=
  match p with
  | None => raise TypeError
  | Some q =>
      let* f := get_fs in
      match stat f q with
      | Some (File _ (FImg w h)) => ret (w, h)
      | _ => raise OSError
      end
  end.

(** [ImageChops.difference]: the result covers the common area *)
Definition image_difference (a b : nat * nat) : nat * nat :=
  (Nat.min (fst a) (fst b), Nat.min (snd a) (snd b)).

(** [img.save(p)]: on a full disk the file is created, left partial, and
    the call raises *)
Definition image_save (img : nat * nat) (p : string) : M unit :=
  let* f := get_fs in
  if disk_full f then
    match write f p (File 0 FRaw) with
    | Some f' => put_fs f' ;; raise OSError
    | None => raise OSError
    end
  else
    match write f p (File 0 (FImg (fst img) (snd img))) with
    | Some f' => put_fs f'
    | None => raise OSError
    end.

(** [open(p, "w+")] *)
Definition open_w (p : string) : M unit :=
  let* f := get_fs in
  match write f p (File 0 FRaw) with
  | Some f' => put_fs f'
  | None => raise OSError
  end.

(* ------------------------------------------------------------------ *)
(** ** [createDiff] (lines 15-35) *)

(** lines 17-18 (and 33-34) *)
Definition remove_if_exists (imageDiffPath : string) : M unit :=
  let* e := path_exists (Some imageDiffPath) in
  if e then os_remove imageDiffPath else ret tt.

(** lines 28-31 *)
Definition diff_and_save (image1Path image2Path : option string)
  (imageDiffPath : string) : M unit :=
  let* image1 := image_open_convert image1Path in
  let* image2 := image_open_convert image2Path in
  let diff := image_difference image1 image2 in
  image_save diff imageDiffPath.

(** the [try] block, lines 17-31 *)
Definition createDiff_try (image1Path image2Path : option string)
  (imageDiffPath : string) : M unit :=
  remove_if_exists imageDiffPath ;;
  let* e1 := path_exists image1Path in
  if negb e1 then
    let* msg := str_concat "Image diff input missing: " image1Path in print msg
  else
  let* e2 := path_exists image2Path in
  if negb e2 then
    let* msg := str_concat "Image diff input missing: " image2Path in print msg
  else diff_and_save image1Path image2Path imageDiffPath.

(** the [except] block, lines 33-35 *)
Definition createDiff_except (image1Path image2Path : option string)
  (imageDiffPath : string) : M unit :=
  remove_if_exists imageDiffPath ;;
  let* m1 := str_concat "Failed to create image diff between: " image1Path in
  let* m2 := str_concat (m1 ++ ", ") image2Path in
  print m2.

Definition createDiff (image1Path image2Path : option string)
  (imageDiffPath : string) : M unit :=
  try_except (createDiff_try image1Path image2Path imageDiffPath)
             (fun _ => createDiff_except image1Path image2Path imageDiffPath).

(** A call site of [createDiff] in [main], recording the output path in the
    ghost state before the call. *)
Definition call_createDiff (image1Path image2Path : option string)
  (imageDiffPath : string) : M unit :=
  ghost_diff imageDiffPath ;; createDiff image1Path image2Path imageDiffPath.

End Run.

(* ------------------------------------------------------------------ *)
(** ** [main] (lines 37-201) *)

Module Report.
Import Py PosixPath FS Run.

(** The parsed command line (lines 39-54). *)
Record args := mkargs {
  inputdir : string;
  inputdir2 : string;
  inputdir3 : string;
  outputfile : string;
  CREATE_DIFF : bool;
  ENABLE_TIMESTAMPS : bool;
  imagewidth : Z;
  imageheight : Z;
  cellpadding : Z;
  tableborder : Z;
  sourcelang : string;
  destlang : string;
  destlang2 : string
}.

Definition default_args : args :=
  mkargs "." "." "." "tests.html" false false 256 256 0 3 "glsl" "osl" "".

(** What the run takes from its surroundings: whether Pillow imported
    (lines 8-13), and how [str(datetime.datetime.fromtimestamp(t))] renders
    a modification time in the local time zone. *)
Record env := mkenv {
  DIFF_ENABLED : bool;
  fmt_time : Z -> string
}.

(** line 74 *)
Definition useThirdLang (a : args) : bool :=
  if negb (String.eqb (destlang2 a) "")
     && (negb (String.eqb (inputdir a) (inputdir3 a))
         || negb (String.eqb (sourcelang a) (destlang2 a)))
  then true else false.

(** lines 84-85: the second input directory after defaulting *)
Definition inputdir2_eff (a : args) : string :=
  if String.eqb (inputdir2 a) "" then inputdir a else inputdir2 a.

(** lines 90-96: [(curFile, subdir)] for every file of the walk whose name
    ends with [sourcelang + ".png"] *)
Definition discover (f : fsys) (top sl : string) : list (string * string) :=
  flat_map (fun e =>
              map (fun curFile => (curFile, fst e))
                  (filter (fun curFile => endswith curFile (sl ++ ".png")) (snd e)))
           (walk f top).

Record row := mkrow {
  sourceFile : string;
  sourcePath : string;
  destFile : string;
  destPath : option string;
  destFile2 : string;
  destPath2 : option string
}.

(** line 108, with [inputdir2] as updated at line 85 *)
Definition dest1_on (a : args) (in2 : string) : bool :=
  negb (String.eqb (inputdir a) in2) || negb (String.eqb (sourcelang a) (destlang a)).

(** lines 103-124, for one source file *)
Definition resolve_row (a : args) (in2 : string) (third : bool)
  (src : string * string) : row :=
  let sourceFile := fst src in
  let sourcePath := snd src in
  let postFix := sourcelang a ++ ".png" in
  let d1 :=
    if dest1_on a in2
    then (slice_neg sourceFile (length (chars postFix)) ++ destlang a ++ ".png",
          Some (join in2 sourcePath))
    else ("", None) in
  let d2 :=
    if third
    then (slice_neg sourceFile (length (chars postFix)) ++ destlang2 a ++ ".png",
          Some (join in2 sourcePath))
    else ("", None) in
  mkrow sourceFile sourcePath (fst d1) (snd d1) (fst d2) (snd d2).

(** [fullSourcePath[0:-8] + "_" + la + "_vs_" + lb + "_diff.png"] *)
Definition diff_name (fullSourcePath la lb : string) : string :=
  slice_neg fullSourcePath 8 ++ "_" ++ la ++ "_vs_" ++ lb ++ "_diff.png".

(** [os.path.join(p, f) if f else None] (lines 130-132) *)
Definition join_if (p : option string) (f : string) : M (option string) :=
  if String.eqb f "" then ret None
  else match p with
       | None => raise TypeError
       | Some p' => ret (Some (join p' f))
       end.

(** [p[0:-8] + ...] where [p] may be [None] *)
Definition diff_name_of (p : option string) (la lb : string) : M string :=
  match p with
  | None => raise TypeError
  | Some p' => ret (diff_name p' la lb)
  end.

(** [if p: k(p)] *)
Definition when_truthy (p : option string) (k : string -> M unit) : M unit :=
  match p with
  | Some s => if String.eqb s "" then ret tt else k s
  | None => ret tt
  end.

(** reading the local [diffPath3]; [None] is "not yet assigned" *)
Definition read_local (v : option (option string)) : M (option string) :=
  match v with
  | None => raise UnboundLocalError
  | Some x => ret x
  end.

Definition img_cell (a : args) (fileUri p : string) : string :=
  "<td class='td_image'><img src='" ++ fileUri ++ p ++ "' height='"
  ++ str_int (imageheight a) ++ "' width='" ++ str_int (imagewidth a)
  ++ "' loading='lazy' style='background-color:black;'/></td>" ++ String "010" "".

Definition nl : string := String "010" "".

(** the timestamp of lines 178-179, 183-184 and 188-189 *)
Definition timestamp (e : env) (a : args) (line : nat) (p : option string) : M unit :=
  let* ts := (if ENABLE_TIMESTAMPS a then path_isfile p else ret false) in
  if ts then
    let* mt := getmtime p in
    fh_write line ("<br>(" ++ fmt_time e mt ++ ")")
  else ret tt.

(** One iteration of the loop of lines 128-197; [curPath] and the local
    [diffPath3] are carried from one iteration to the next. *)
Definition row_step (e : env) (a : args) (third : bool) (r : row)
  (curPath : string) (diffPath3 : option (option string))
  : M (string * option (option string)) :=
  let* fullSourcePath := join_if (Some (sourcePath r)) (sourceFile r) in
  let* fullDestPath := join_if (destPath r) (destFile r) in
  let* fullDestPath2 := join_if (destPath2 r) (destFile2 r) in
  let* curPath' :=
    (if negb (String.eqb curPath (sourcePath r)) then
       (if negb (String.eqb curPath "") then fh_write 136 ("</table>" ++ nl) else ret tt) ;;
       fh_write 137 ("<p>" ++ normpath (sourcePath r) ++ ":</p>" ++ nl) ;;
       fh_write 138 ("<table>" ++ nl) ;;
       ret (sourcePath r)
     else ret curPath) in
  let* diffPath :=
    (if negb (String.eqb (sourceFile r) "") && negb (String.eqb (destFile r) "")
        && DIFF_ENABLED e && CREATE_DIFF a then
       let* d := diff_name_of fullSourcePath (sourcelang a) (destlang a) in
       call_createDiff fullSourcePath fullDestPath d ;;
       ret (Some d)
     else ret None) in
  let* d23 :=
    (if third && negb (String.eqb (sourceFile r) "") && negb (String.eqb (destFile2 r) "")
        && DIFF_ENABLED e && CREATE_DIFF a then
       let* d2 := diff_name_of fullSourcePath (sourcelang a) (destlang2 a) in
       call_createDiff fullSourcePath fullDestPath2 d2 ;;
       let* d3 := diff_name_of fullSourcePath (destlang a) (destlang2 a) in
       call_createDiff fullDestPath fullDestPath2 d3 ;;
       ret (Some d2, Some (Some d3))
     else ret (None, diffPath3)) in
  let diffPath2 := fst d23 in
  let diffPath3' := snd d23 in
  let fileUri := if isabs (outputfile a) then "file:///" else "" in
  fh_write 160 ("<tr>" ++ nl) ;;
  when_truthy fullSourcePath (fun p => fh_write 162 (img_cell a fileUri p)) ;;
  when_truthy fullDestPath (fun p => fh_write 164 (img_cell a fileUri p)) ;;
  when_truthy fullDestPath2 (fun p => fh_write 166 (img_cell a fileUri p)) ;;
  when_truthy diffPath (fun p => fh_write 168 (img_cell a fileUri p)) ;;
  when_truthy diffPath2 (fun p => fh_write 170 (img_cell a fileUri p)) ;;
  let* v3 := read_local diffPath3' in
  when_truthy v3 (fun p => fh_write 172 (img_cell a fileUri p)) ;;
  fh_write 173 ("</tr>" ++ nl) ;;
  fh_write 175 ("<tr>" ++ nl) ;;
  when_truthy fullSourcePath (fun _ => fh_write 177 ("<td align='center'>" ++ sourceFile r)) ;;
  timestamp e a 179 fullSourcePath ;;
  fh_write 180 ("</td>" ++ nl) ;;
  when_truthy fullDestPath (fun _ => fh_write 182 ("<td align='center'>" ++ destFile r)) ;;
  timestamp e a 184 fullDestPath ;;
  fh_write 185 ("</td>" ++ nl) ;;
  when_truthy fullDestPath2 (fun _ => fh_write 187 ("<td align='center'>" ++ destFile2 r)) ;;
  timestamp e a 189 fullDestPath2 ;;
  fh_write 190 ("</td>" ++ nl) ;;
  when_truthy diffPath (fun _ => fh_write 192
    ("<td align='center'>Difference " ++ sourcelang a ++ " vs. " ++ destlang a ++ " </td>" ++ nl)) ;;
  when_truthy diffPath2 (fun _ => fh_write 194
    ("<td align='center'>Difference " ++ sourcelang a ++ " vs. " ++ destlang2 a ++ " </td>" ++ nl)) ;;
  let* v3' := read_local diffPath3' in
  when_truthy v3' (fun _ => fh_write 196
    ("<td align='center'>Difference " ++ destlang a ++ " vs. " ++ destlang2 a ++ " </td>" ++ nl)) ;;
  fh_write 197 ("</tr>" ++ nl) ;;
  ret (curPath', diffPath3').

Fixpoint row_loop (e : env) (a : args) (third : bool) (rows : list row)
  (curPath : string) (diffPath3 : option (option string)) : M unit :=
  match rows with
  | [] => ret tt
  | r :: rs =>
      let* c := row_step e a third r curPath diffPath3 in
      row_loop e a third rs (fst c) (snd c)
  end.

(** lines 70-79 *)
Definition heading (a : args) (cwd : string) : string :=
  let dir1 := if String.eqb (inputdir a) "." then cwd else inputdir a in
  let dir2 := if String.eqb (inputdir2 a) "." then cwd else inputdir2 a in
  let dir3 := if String.eqb (inputdir3 a) "." then cwd else inputdir3 a in
  if useThirdLang a then
    "<h3>" ++ sourcelang a ++ " (in: " ++ dir1 ++ ") vs " ++ destlang a ++ " (in: "
    ++ dir2 ++ ") vs " ++ destlang2 a ++ " (in: " ++ dir3 ++ ")</h3>" ++ nl
  else
    "<h3>" ++ sourcelang a ++ " (in: " ++ dir1 ++ ") vs " ++ destlang a ++ " (in: "
    ++ dir2 ++ ")</h3>" ++ nl.

Definition main (e : env) (a : args) : M unit :=
  open_w (outputfile a) ;;
  fh_write 57 ("<html>" ++ nl) ;;
  fh_write 58 ("<style>" ++ nl) ;;
  fh_write 59 "td {" ;;
  fh_write 60 ("    padding: " ++ str_int (cellpadding a) ++ ";") ;;
  fh_write 61 ("    border: " ++ str_int (tableborder a) ++ "px solid black;") ;;
  fh_write 62 "}" ;;
  fh_write 63 "table, tbody, th, .td_image {" ;;
  fh_write 64 "    border-collapse: collapse;" ;;
  fh_write 65 "    padding: 0;" ;;
  fh_write 66 "    margin: 0;" ;;
  fh_write 67 "}" ;;
  fh_write 68 "</style>" ;;
  fh_write 69 ("<body>" ++ nl) ;;
  let* f := get_fs in
  fh_write (if useThirdLang a then 77 else 79) (heading a (getcwd f)) ;;
  (if negb (DIFF_ENABLED e) && CREATE_DIFF a
   then print "--diff argument ignored. Diff utility not installed." else ret tt) ;;
  (* lines 86-87 update [inputdir3], which is not read afterwards *)
  let in2 := inputdir2_eff a in
  let third := useThirdLang a in
  let* f' := get_fs in
  let sources := discover f' (inputdir a) (sourcelang a) in
  let rows := map (resolve_row a in2 third) sources in
  (match sources with
   | [] => ret tt
   | _ :: _ => row_loop e a third rows "" None
   end) ;;
  fh_write 199 ("</table>" ++ nl) ;;
  fh_write 200 ("</body>" ++ nl) ;;
  fh_write 201 ("</html>" ++ nl).

(** The rows [main] builds from the filesystem [f] (lines 89-124). *)
Definition rows_of (f : fsys) (a : args) : list row :=
  map (resolve_row a (inputdir2_eff a) (useThirdLang a))
      (discover f (inputdir a) (sourcelang a)).

(** The text of the report file. *)
Definition report (s : st) : string := String.concat "" (map snd (out s)).

End Report.

(* ------------------------------------------------------------------ *)
(** ** Tag structure of an HTML text *)

Module Html.
Import Py.

Inductive tag := TOpen (n : string) | TClose (n : string) | TVoid.

(** the element name at the start of a tag body *)
Fixpoint name_chars (l : list ascii) : list ascii :=
  match l with
  | [] => []
  | c :: l' =>
      if Ascii.eqb c " "%char || Ascii.eqb c "/"%char || Ascii.eqb c (ascii_of_nat 10)
      then [] else c :: name_chars l'
  end.

Definition void_elements : list string := ["br"; "img"; "hr"; "meta"; "link"; "input"].

Definition classify (body : list ascii) : tag :=
  match body with
  | "/"%char :: rest => TClose (unchars (name_chars rest))
  | _ =>
      let n := unchars (name_chars body) in
      if existsb (String.eqb n) void_elements
         || Ascii.eqb (last body " "%char) "/"%char
      then TVoid else TOpen n
  end.

(** the tags [<...>] of a text, in order *)
Fixpoint scan (l : list ascii) (intag : option (list ascii)) : list tag :=
  match l with
  | [] => []
  | c :: l' =>
      match intag with
      | None => if Ascii.eqb c "<"%char then scan l' (Some []) else scan l' None
      | Some acc =>
          if Ascii.eqb c ">"%char then classify (rev acc) :: scan l' None
          else scan l' (Some (c :: acc))
      end
  end.

(** every closing tag closes the innermost open element, and every element
    opened is closed *)
Fixpoint balanced (ts : list tag) (stack : list string) : bool :=
  match ts with
  | [] => match stack with [] => true | _ :: _ => false end
  | TOpen n :: ts' => balanced ts' (n :: stack)
  | TClose n :: ts' =>
      match stack with
      | m :: stack' => String.eqb m n && balanced ts' stack'
      | [] => false
      end
  | TVoid :: ts' => balanced ts' stack
  end.

Definition well_formed (doc : string) : bool := balanced (scan (chars doc) None) [].

End Html.

(* ------------------------------------------------------------------ *)
(** ** Concrete configurations used below *)

Module Inputs.
Import FS Run Report.

Definition img (m : Z) : node := File m (FImg 4 4).

(** [/w] is the working directory and holds [foo_glsl.png] *)
Definition fs_one : fsys :=
  mkfs (ECons "w" (Dir (ECons "foo_glsl.png" (img 1) ENil)) ENil) ["w"] false all_writable.

(** [/w] is the working directory and holds no image *)
Definition fs_empty : fsys := mkfs (ECons "w" (Dir ENil) ENil) ["w"] false all_writable.

(** [/w/A] holds [foo_glsl.png] and [foo_osl.png] *)
Definition fs_A : fsys :=
  mkfs (ECons "w" (Dir (ECons "A" (Dir (ECons "foo_glsl.png" (img 1)
                                       (ECons "foo_osl.png" (img 2) ENil))) ENil)) ENil)
       ["w"] false all_writable.

Definition args_A : args :=
  mkargs "A" "A" "." "tests.html" false false 256 256 0 3 "glsl" "osl" "".

(** [-i A -i2 "" -sl glsl -dl glsl] *)
Definition args_A_empty2 : args :=
  mkargs "A" "" "." "tests.html" false false 256 256 0 3 "glsl" "glsl" "".

(** [/abs] holds [x_glsl.png] and a subdirectory [s] holding [y_glsl.png] *)
Definition fs_abs : fsys :=
  mkfs (ECons "abs" (Dir (ECons "x_glsl.png" (img 1)
                         (ECons "s" (Dir (ECons "y_glsl.png" (img 1) ENil)) ENil))) ENil)
       ["w"] false all_writable.

Definition args_abs : args :=
  mkargs "/abs" "B" "C" "tests.html" false false 256 256 0 3 "glsl" "osl" "mdl".

(** [/w] holds an image [in.png], a directory [out.png] and an
    undecodable file [raw.png] *)
Definition fs_diff : fsys :=
  mkfs (ECons "w" (Dir (ECons "in.png" (img 1)
                         (ECons "out.png" (Dir ENil)
                         (ECons "raw.png" (File 1 FRaw) ENil)))) ENil) ["w"] false all_writable.

(** [/w] holds [in.png] and a stale [d.png], but is not writable: no
    entry of it can be created or removed *)
Definition fs_locked : fsys :=
  mkfs (ECons "w" (Dir (ECons "in.png" (img 1) (ECons "d.png" (img 2) ENil))) ENil)
       ["w"] false (fun q => negb (String.eqb (Py.join_slash q) "w")).

Definition start (f : fsys) : st := mkst f [] [] [].

(** the row built for [foo_glsl.png] under [args_A] *)
Definition row_A : row := mkrow "foo_glsl.png" "A" "foo_osl.png" (Some "A/A") "" None.

(** Pillow installed; times rendered as the empty string *)
Definition env_pil : env := mkenv true (fun _ => "").

(** [-i A -i2 A -d -dl2 mdl]: three languages with diffs *)
Definition args_full : args :=
  mkargs "A" "A" "." "tests.html" true false 256 256 0 3 "glsl" "osl" "mdl".

(** [fs_A] once [tests.html] is opened for writing *)
Definition fs_A_out : fsys :=
  Eval vm_compute in
    match write fs_A "tests.html" (File 0 FRaw) with Some f => f | None => fs_A end.



End Inputs.

(* ------------------------------------------------------------------ *)
(** ** Specification vocabulary for runs of [main] *)

Module Spec.
Import Py PosixPath FS Run Report.

(** nothing is at [p], or what is there [os.remove] can delete *)
Definition clearable (f : fsys) (p : string) : Prop :=
  stat f p = None \/ exists f', remove f p = Some f'.

(** [s'] extends [s] along the projection [f] by items satisfying [Q] *)
Definition grows {X : Type} (f : st -> list X) (Q : X -> Prop) (s s' : st) : Prop :=
  exists w, f s' = (f s ++ w)%list /\ Forall Q w.

(** a partial-correctness triple: the step from the initial to the final
    state is related by [I], and a normal result satisfies [R] *)
Definition hoare {A : Type} (I : st -> st -> Prop) (m : M A) (R : A -> Prop) : Prop :=
  forall s, I s (snd (m s)) /\ (forall x, fst (m s) = Ok x -> R x).

Definition keeps {X A : Type} (f : st -> X) (m : M A) : Prop :=
  forall s, f (snd (m s)) = f s.

(** the [fh.write] calls of destination-2 cells: the image cells of
    [fullDestPath2], [diffPath2] and [diffPath3] (lines 166, 170, 172) and
    the caption cells of the same three (lines 187, 189, 190, 194, 196) *)
Definition dest2_cell_lines : list nat := [166; 170; 172; 187; 189; 190; 194; 196]%nat.

(** the step relation that says nothing *)
Definition any_step (s s' : st) : Prop := True.

(** the filesystem and the [createDiff] calls are left as they were *)
Definition fs_kept (s s' : st) : Prop := fs s' = fs s /\ diff_calls s' = diff_calls s.

(** a report chunk written at none of [dest2_cell_lines] *)
Definition no_dest2 (p : nat * string) : Prop := ~ In (fst p) dest2_cell_lines.

(** [quiet]: neither writes to the report nor calls [createDiff] *)
Definition quiet {A} (m : M A) : Prop := keeps out m /\ keeps diff_calls m.

(** the name of a diff image for a source image [sf] in [sp] and a pair of
    languages among the three pairs the script compares *)
Definition diff_artifact (a : args) (srcs : list (string * string)) (d : string) : Prop :=
  exists sp sf la lb,
    In (sf, sp) srcs /\
    In (la, lb) [(sourcelang a, destlang a); (sourcelang a, destlang2 a);
                 (destlang a, destlang2 a)] /\
    d = diff_name (join sp sf) la lb.

End Spec.

(* ------------------------------------------------------------------ *)
(** ** Strings and paths *)

Module StrFacts.
Import Py PosixPath.

Lemma chars_app (a b : string) : chars (a ++ b) = (chars a ++ chars b)%list.
Proof. induction a as [|c a IH]; simpl; [reflexivity | now rewrite IH]. Qed.

Lemma unchars_app (l m : list ascii) : unchars (l ++ m) = unchars l ++ unchars m.
Proof. induction l as [|c l IH]; simpl; [reflexivity | now rewrite IH]. Qed.

Lemma unchars_chars (s : string) : unchars (chars s) = s.
Proof. apply string_of_list_ascii_of_string. Qed.

Lemma endswith_split (s suf : string) :
  endswith s suf = true -> s = slice_neg s (length (chars suf)) ++ suf.
Proof.
  unfold endswith, slice_neg. intros H. apply andb_prop in H as [_ H].
  apply String.eqb_eq in H. rewrite <- H at 2. rewrite <- unchars_app.
  now rewrite firstn_skipn, unchars_chars.
Qed.

Lemma slice_neg_app (pre suf : string) :
  slice_neg (pre ++ suf) (length (chars suf)) = pre.
Proof.
  unfold slice_neg. rewrite chars_app, length_app, Nat.add_sub, firstn_app,
    Nat.sub_diag, firstn_O, app_nil_r, firstn_all.
  apply unchars_chars.
Qed.

Lemma str_app_assoc (a b c : string) : (a ++ b) ++ c = a ++ b ++ c.
Proof. induction a as [|x a IH]; simpl; [reflexivity | now rewrite IH]. Qed.

Lemma append_empty_r (a b : string) : a ++ b = "" -> b = "".
Proof. destruct a; simpl; [auto | discriminate]. Qed.

Lemma startswith_slash (s : string) :
  startswith s "/" = true <-> exists t, s = String "/" t.
Proof.
  unfold startswith. destruct s as [|c t]; simpl.
  - split; [discriminate | intros [t H]; discriminate].
  - split.
    + intros H. destruct (Ascii.eqb_spec c "/"%char) as [->|]; [now exists t | discriminate].
    + intros [t' H]. injection H as -> _. reflexivity.
Qed.

Lemma isabs_join (a d : string) : isabs a = true -> isabs (join a d) = true.
Proof.
  unfold isabs, join. intros Ha.
  destruct (startswith d "/") eqn:Hd; [exact Hd |].
  apply startswith_slash in Ha as [t ->]. apply startswith_slash.
  destruct (_ || _); simpl; eauto.
Qed.

Lemma join_abs (a b : string) : isabs b = true -> join a b = b.
Proof. unfold isabs, join. now intros ->. Qed.

End StrFacts.

(* ------------------------------------------------------------------ *)
(** ** The walk and the discovery *)

Module WalkFacts.
Import Py PosixPath FS Report StrFacts.

Scheme node_mind := Induction for node Sort Prop
with entries_mind := Induction for entries Sort Prop.

Lemma walk_abs_node (x : node) :
  forall top, isabs top = true -> forall e, In e (walk_node top x) -> isabs (fst e) = true.
Proof.
  apply (node_mind
    (fun x => forall top, isabs top = true ->
              forall e, In e (walk_node top x) -> isabs (fst e) = true)
    (fun es => forall top, isabs top = true ->
               forall e, In e (walk_subdirs top es) -> isabs (fst e) = true)).
  - intros m d top _ e [].
  - intros es IH top Htop e [<- | He]; [exact Htop | exact (IH top Htop e He)].
  - intros top _ e [].
  - intros d y IHy rest IHrest top Htop e He. simpl in He.
    apply in_app_or in He as [He | He].
    + destruct y; [destruct He |].
      exact (IHy (join top d) (isabs_join top d Htop) e He).
    + exact (IHrest top Htop e He).
Qed.

Lemma walk_abs (f : fsys) (top : string) :
  isabs top = true -> forall e, In e (walk f top) -> isabs (fst e) = true.
Proof.
  unfold walk. intros Htop e He.
  destruct (stat f top) as [[|es]|].
  - destruct He.
  - exact (walk_abs_node (Dir es) top Htop e He).
  - destruct He.
Qed.

Lemma discover_spec (f : fsys) (top sl sf sp : string) :
  In (sf, sp) (discover f top sl) ->
  endswith sf (sl ++ ".png") = true /\ exists files, In (sp, files) (walk f top).
Proof.
  unfold discover. rewrite in_flat_map. intros [[d files] [Hw H]].
  apply in_map_iff in H as [c [Heq Hin]]. injection Heq as -> ->.
  apply filter_In in Hin as [_ Hs]. split; [exact Hs | now exists files].
Qed.

End WalkFacts.

Import Py PosixPath FS Run Report Html Inputs StrFacts WalkFacts.

(* ------------------------------------------------------------------ *)
(** ** The correspondence resolver (lines 89-124) *)

(** C4: for every discovered source file, when destination 1 is computed
    its file name is the source file name with the trailing
    [<sourcelang>.png] replaced by [<destlang>.png], the prefix before it
    being the same string. *)
Theorem C4_dest1_name_substitutes_suffix (f : fsys) (a : args) (in2 : string)
  (third : bool) (r : row) :
  In r (map (resolve_row a in2 third) (discover f (inputdir a) (sourcelang a))) ->
  dest1_on a in2 = true ->
  exists prefix,
    sourceFile r = prefix ++ sourcelang a ++ ".png" /\
    destFile r = prefix ++ destlang a ++ ".png".
Proof.
  intros Hr Hon. apply in_map_iff in Hr as [[sf sp] [<- Hin]].
  apply discover_spec in Hin as [Hsuf _].
  exists (slice_neg sf (length (chars (sourcelang a ++ ".png")))).
  unfold resolve_row; simpl. rewrite Hon; simpl.
  split; [exact (endswith_split _ _ Hsuf) | reflexivity].
Qed.

Lemma C4_dest1_name_substitutes_suffix_witness :
  In (mkrow "foo_glsl.png" "." "foo_osl.png" (Some "./.") "" None)
     (map (resolve_row default_args "." false)
          (discover fs_one (inputdir default_args) (sourcelang default_args))) /\
  dest1_on default_args "." = true /\
  exists prefix,
    sourceFile (mkrow "foo_glsl.png" "." "foo_osl.png" (Some "./.") "" None)
      = prefix ++ sourcelang default_args ++ ".png" /\
    destFile (mkrow "foo_glsl.png" "." "foo_osl.png" (Some "./.") "" None)
      = prefix ++ destlang default_args ++ ".png".
Proof.
  split; [vm_compute; left; reflexivity |].
  split; [reflexivity |].
  apply (C4_dest1_name_substitutes_suffix fs_one default_args "." false);
    [vm_compute; left; reflexivity | reflexivity].
Defined.

(** C5 (as amended): for every row [main] builds, destination 1 is absent
    (empty file name, no directory) exactly when the source root equals the
    destination-1 root and the two languages are equal; the destination-1
    root is [inputdir2], an empty [inputdir2] standing for [inputdir]
    (lines 84-85). Otherwise destination 1 is computed: a non-empty file
    name in [os.path.join(root2, sourcePath)]. *)
Theorem C5_dest1_absent_iff_same_root_and_lang (f : fsys) (a : args) (r : row) :
  In r (rows_of f a) ->
  (inputdir a = inputdir2_eff a /\ sourcelang a = destlang a ->
     destFile r = "" /\ destPath r = None) /\
  (~ (inputdir a = inputdir2_eff a /\ sourcelang a = destlang a) ->
     destFile r <> "" /\
     destPath r = Some (join (inputdir2_eff a) (sourcePath r))).
Proof.
  unfold rows_of. intros Hr. apply in_map_iff in Hr as [[sf sp] [<- _]].
  unfold resolve_row, dest1_on; simpl.
  destruct (String.eqb_spec (inputdir a) (inputdir2_eff a)) as [E1|E1];
  destruct (String.eqb_spec (sourcelang a) (destlang a)) as [E2|E2]; simpl;
  (split; intros H; [try (exfalso; tauto); split; reflexivity |]);
  try (exfalso; tauto);
  (split; [intros Hd; apply append_empty_r, append_empty_r in Hd; discriminate
          | reflexivity]).
Qed.

(** C5 as stated, about the configured [inputdir2], fails: with
    [-i A -i2 "" -sl glsl -dl glsl] the configured roots differ and the
    languages are equal, yet destination 1 is absent, because the empty
    [inputdir2] is replaced by [inputdir] before the comparison. *)
Lemma C5_configured_root_counterexample :
  ~ (forall r, In r (rows_of fs_A args_A_empty2) ->
       (inputdir args_A_empty2 = inputdir2 args_A_empty2 /\
        sourcelang args_A_empty2 = destlang args_A_empty2 ->
          destFile r = "" /\ destPath r = None) /\
       (~ (inputdir args_A_empty2 = inputdir2 args_A_empty2 /\
           sourcelang args_A_empty2 = destlang args_A_empty2) ->
          destFile r <> "" /\ destPath r <> None)).
Proof.
  intros H.
  destruct (H (mkrow "foo_glsl.png" "A" "" None "" None)) as [_ H2].
  - vm_compute. left. reflexivity.
  - destruct H2 as [H3 _].
    + intros [E _]. discriminate E.
    + apply H3. reflexivity.
Qed.

(** C10: when the source root [inputdir] is absolute, the walk yields
    absolute directories, and [os.path.join] then drops its first argument:
    every computed destination-1 and destination-2 directory is the
    source file's own walk directory, whatever [inputdir2] and
    [inputdir3] are. *)
Theorem C10_absolute_inputdir_dest_dir_is_walk_dir (f : fsys) (a : args)
  (in2 : string) (third : bool) (r : row) :
  isabs (inputdir a) = true ->
  In r (map (resolve_row a in2 third) (discover f (inputdir a) (sourcelang a))) ->
  isabs (sourcePath r) = true /\
  (forall d, destPath r = Some d -> d = sourcePath r) /\
  (forall d, destPath2 r = Some d -> d = sourcePath r).
Proof.
  intros Habs Hr. apply in_map_iff in Hr as [[sf sp] [<- Hin]].
  apply discover_spec in Hin as [_ [files Hw]].
  pose proof (walk_abs f (inputdir a) Habs (sp, files) Hw) as Hsp. simpl in Hsp.
  unfold resolve_row; simpl.
  split; [exact Hsp |].
  split; intros d Hd;
    [destruct (dest1_on a in2) | destruct third]; simpl in Hd;
    try discriminate; injection Hd as <-; apply join_abs, Hsp.
Qed.

Lemma C10_absolute_inputdir_dest_dir_is_walk_dir_witness :
  isabs (inputdir args_abs) = true /\
  In (mkrow "y_glsl.png" "/abs/s" "y_osl.png" (Some "/abs/s") "y_mdl.png" (Some "/abs/s"))
     (map (resolve_row args_abs "B" true)
          (discover fs_abs (inputdir args_abs) (sourcelang args_abs))) /\
  (isabs "/abs/s" = true /\
   (forall d, Some "/abs/s" = Some d -> d = "/abs/s") /\
   (forall d, Some "/abs/s" = Some d -> d = "/abs/s")).
Proof.
  split; [reflexivity |].
  split; [vm_compute; right; left; reflexivity |].
  exact (C10_absolute_inputdir_dest_dir_is_walk_dir fs_abs args_abs "B" true
           (mkrow "y_glsl.png" "/abs/s" "y_osl.png" (Some "/abs/s") "y_mdl.png" (Some "/abs/s"))
           eq_refl ltac:(vm_compute; right; left; reflexivity)).
Defined.

(** C3 (code defect): with [inputdir=A] holding [foo_glsl.png], [destlang=osl]
    and [inputdir2=A], the destination file name is [foo_osl.png] and the
    heading reads [glsl (in: A) vs osl (in: A)], but the destination
    directory is [os.path.join("A", "A") = "A/A"], since the walk directory
    ["A"] already contains the root; the [foo_osl.png] that sits in [A] is
    not the path the report refers to. *)
Lemma C3_dest_dir_joins_root_twice :
  rows_of fs_A args_A = [mkrow "foo_glsl.png" "A" "foo_osl.png" (Some "A/A") "" None] /\
  heading args_A (getcwd fs_A) = "<h3>glsl (in: A) vs osl (in: A)</h3>" ++ nl /\
  exists_ fs_A (join "A" "foo_osl.png") = true /\
  exists_ fs_A (join "A/A" "foo_osl.png") = false.
Proof. vm_compute. repeat split. Qed.

(* ------------------------------------------------------------------ *)
(** ** Runs of [main] *)

(** C1 (code defect): with the default arguments (no [destlang2]) and one
    [foo_glsl.png] in the working directory, the run stops with an
    [UnboundLocalError]: [diffPath3] is only assigned in the branch of
    line 147, and line 171 reads it. This holds whether or not Pillow is
    available. *)
Lemma C1_default_run_raises_unbound_diffPath3 (e : env) :
  fst (main e default_args (start fs_one)) = Exc UnboundLocalError.
Proof. destruct e as [[|] t]; vm_compute; reflexivity. Qed.

(** C9 (code defect): with no source file found, the run ends normally
    but the report closes a [<table>] that was never opened (line 199 is
    outside the [if sourceFiles:] block), so its tags are not balanced. *)
Lemma C9_empty_run_closes_unopened_table (e : env) :
  fst (main e default_args (start fs_empty)) = Ok tt /\
  scan (chars (report (snd (main e default_args (start fs_empty))))) None
    = [TOpen "html"; TOpen "style"; TClose "style"; TOpen "body";
       TOpen "h3"; TClose "h3"; TClose "table"; TClose "body"; TClose "html"] /\
  well_formed (report (snd (main e default_args (start fs_empty)))) = false.
Proof. destruct e as [[|] t]; vm_compute; repeat split. Qed.

(* ------------------------------------------------------------------ *)
(** ** The filesystem operations *)

Module FSFacts.

Lemma find_drop_same (c : string) (es : entries) : find_es c (drop_es c es) = None.
Proof.
  induction es as [|n x rest IH]; simpl; [reflexivity |].
  destruct (String.eqb_spec n c) as [->|Hn]; [exact IH |].
  simpl. apply String.eqb_neq in Hn. now rewrite Hn.
Qed.

Lemma find_drop_other (c c' : string) (es : entries) :
  c' <> c -> find_es c' (drop_es c es) = find_es c' es.
Proof.
  intros Hc. induction es as [|n x rest IH]; simpl; [reflexivity |].
  destruct (String.eqb_spec n c) as [->|Hn].
  - apply not_eq_sym, String.eqb_neq in Hc. now rewrite Hc.
  - simpl. now rewrite IH.
Qed.

Lemma find_set_same (c : string) (x : node) (es : entries) :
  find_es c (set_es c x es) = Some x.
Proof.
  induction es as [|n y rest IH]; simpl.
  - now rewrite String.eqb_refl.
  - destruct (String.eqb_spec n c) as [->|Hn]; simpl.
    + now rewrite String.eqb_refl.
    + apply String.eqb_neq in Hn. now rewrite Hn.
Qed.

Lemma find_set_other (c c' : string) (x : node) (es : entries) :
  c' <> c -> find_es c' (set_es c x es) = find_es c' es.
Proof.
  intros Hc. induction es as [|n y rest IH]; simpl.
  - apply not_eq_sym, String.eqb_neq in Hc. now rewrite Hc.
  - destruct (String.eqb_spec n c) as [->|Hn]; simpl; [| now rewrite IH].
    apply not_eq_sym, String.eqb_neq in Hc. now rewrite Hc.
Qed.

Lemma remove_path_gone (es es' : entries) (q : list string) :
  remove_path es q = Some es' -> lookup_path es' q = None.
Proof.
  revert es es'. induction q as [|c rest IH]; intros es es' H; [discriminate |].
  simpl in H. destruct rest as [|c2 rest2].
  - destruct (find_es c es) as [[]|]; try discriminate.
    injection H as <-. simpl. now rewrite find_drop_same.
  - destruct (find_es c es) as [[|es0]|]; try discriminate.
    destruct (remove_path es0 (c2 :: rest2)) as [es0'|] eqn:R; [|discriminate].
    injection H as <-. simpl. rewrite find_set_same. exact (IH _ _ R).
Qed.

Lemma remove_path_other (es es' : entries) (q q' : list string) :
  remove_path es q = Some es' -> q' <> q ->
  (lookup_path es' q' = None <-> lookup_path es q' = None).
Proof.
  revert es es' q'. induction q as [|c rest IH]; intros es es' q' H Hq; [discriminate |].
  destruct q' as [|c' r']; [simpl; split; discriminate |].
  simpl in H. destruct rest as [|c2 rest2].
  - destruct (find_es c es) as [[m d|es0]|] eqn:F; try discriminate.
    injection H as <-. simpl.
    destruct (String.eqb_spec c' c) as [->|Hc].
    + rewrite find_drop_same, F.
      destruct r'; [congruence | tauto].
    + now rewrite find_drop_other.
  - destruct (find_es c es) as [[|es0]|] eqn:F; try discriminate.
    destruct (remove_path es0 (c2 :: rest2)) as [es0'|] eqn:R; [|discriminate].
    injection H as <-. simpl.
    destruct (String.eqb_spec c' c) as [->|Hc].
    + rewrite find_set_same, F. apply (IH _ _ _ R). congruence.
    + now rewrite find_set_other.
Qed.

Lemma remove_path_file (es : entries) (q : list string) (m : Z) (d : fdata) :
  lookup_path es q = Some (File m d) -> exists es', remove_path es q = Some es'.
Proof.
  revert es. induction q as [|c rest IH]; intros es H; [discriminate |].
  simpl in *. destruct (find_es c es) as [[|es0]|]; try discriminate.
  - destruct rest; [eauto | discriminate].
  - destruct rest as [|c2 rest2]; [discriminate |].
    destruct (IH es0 H) as [es0' ->]. simpl. eauto.
Qed.

Lemma write_path_lookup (es es' : entries) (q : list string) (x : node) :
  write_path es q x = Some es' -> lookup_path es' q = Some x.
Proof.
  revert es es'. induction q as [|c rest IH]; intros es es' H; [discriminate |].
  simpl in H. destruct rest as [|c2 rest2].
  - destruct (find_es c es) as [[|]|]; try discriminate;
      injection H as <-; simpl; rewrite find_set_same; destruct x; reflexivity.
  - destruct (find_es c es) as [[|es0]|]; try discriminate.
    destruct (write_path es0 (c2 :: rest2) x) as [es0'|] eqn:R; [|discriminate].
    injection H as <-. simpl. rewrite find_set_same. exact (IH _ _ R).
Qed.

(** [os.remove] at the level of paths *)
Lemma remove_stat (f f' : fsys) (p : string) :
  remove f p = Some f' ->
  cwd f' = cwd f /\ stat f' p = None /\
  (forall q, canon (cwd f) q <> canon (cwd f) p ->
             (stat f' q = None <-> stat f q = None)).
Proof.
  unfold remove, stat. cbv zeta. destruct (String.eqb_spec p "") as [->|Hp]; [discriminate |].
  destruct (writable f (removelast (canon (cwd f) p))); [|discriminate].
  destruct (remove_path (root f) (canon (cwd f) p)) as [r|] eqn:R; [|discriminate].
  intros H. injection H as <-. simpl.
  split; [reflexivity |]. split; [exact (remove_path_gone _ _ _ R) |].
  intros q Hq. destruct (String.eqb q ""); [tauto |].
  exact (remove_path_other _ _ _ _ R Hq).
Qed.

(** a path that names nothing still names nothing after a removal *)
Lemma remove_missing (f f' : fsys) (p q : string) :
  remove f p = Some f' -> stat f q = None -> stat f' q = None.
Proof.
  intros H Hq. destruct (remove_stat _ _ _ H) as [Hc [Hp Ho]].
  destruct (list_eq_dec String.string_dec (canon (cwd f) q) (canon (cwd f) p)) as [E|E];
    [| now apply Ho].
  unfold stat in *. destruct (String.eqb q ""); [reflexivity |].
  destruct (String.eqb p "") eqn:Ep.
  - unfold remove in H. rewrite Ep in H. discriminate.
  - rewrite Hc, E. rewrite Hc in Hp. exact Hp.
Qed.

Lemma write_stat (f f' : fsys) (p : string) (x : node) :
  write f p x = Some f' -> stat f' p = Some x.
Proof.
  unfold write, stat. cbv zeta. destruct (String.eqb p ""); [discriminate |].
  destruct (match lookup_path (root f) (canon (cwd f) p) with
            | Some (File _ _) => _ | _ => _ end); [|discriminate].
  destruct (write_path (root f) (canon (cwd f) p) x) as [r|] eqn:R; [|discriminate].
  intros H. injection H as <-. exact (write_path_lookup _ _ _ _ R).
Qed.

(** a file the process has just created where nothing was can be removed
    again: its directory is writable *)
Lemma write_new_removable (f f' : fsys) (p : string) (m : Z) (d : fdata) :
  stat f p = None -> write f p (File m d) = Some f' -> exists f'', remove f' p = Some f''.
Proof.
  unfold stat, write, remove. cbv zeta. destruct (String.eqb p ""); [discriminate |].
  intros Hn. rewrite Hn.
  destruct (writable f (removelast (canon (cwd f) p))) eqn:Wr; [|discriminate].
  destruct (write_path (root f) (canon (cwd f) p) (File m d)) as [r|] eqn:R; [|discriminate].
  intros H. injection H as <-. simpl. rewrite Wr.
  destruct (remove_path_file _ _ _ _ (write_path_lookup _ _ _ _ R)) as [es' ->]. simpl. eauto.
Qed.

Lemma remove_path_not_dir (es es0 : entries) (q : list string) :
  lookup_path es q = Some (Dir es0) -> remove_path es q = None.
Proof.
  revert es. induction q as [|c rest IH]; intros es H; [reflexivity |].
  simpl in *. destruct (find_es c es) as [[m d|es1]|]; try discriminate.
  - destruct rest; discriminate.
  - destruct rest as [|c2 rest2]; [reflexivity |]. now rewrite (IH es1 H).
Qed.

Lemma remove_not_dir (f : fsys) (p : string) (es : entries) :
  stat f p = Some (Dir es) -> remove f p = None.
Proof.
  unfold stat, remove. cbv zeta. destruct (String.eqb p ""); [discriminate |].
  intros H. rewrite (remove_path_not_dir _ _ _ H).
  destruct (writable f _); reflexivity.
Qed.

End FSFacts.

(* ------------------------------------------------------------------ *)
(** ** [createDiff] *)

Module DiffFacts.
Import FSFacts Spec.

(** lines 17-18 when the output path is free or removable *)
Lemma clear_spec (p : string) (s : st) :
  clearable (fs s) p ->
  let s1 := snd (remove_if_exists p s) in
  fst (remove_if_exists p s) = Ok tt /\
  logs s1 = logs s /\ out s1 = out s /\ stat (fs s1) p = None /\
  (forall q, canon (cwd (fs s)) q <> canon (cwd (fs s)) p ->
             (stat (fs s1) q = None <-> stat (fs s) q = None)) /\
  (forall q, stat (fs s) q = None -> stat (fs s1) q = None).
Proof.
  intros Hcl. unfold remove_if_exists, path_exists, bind, get_fs, ret, exists_. simpl.
  destruct (stat (fs s) p) as [[m d|es]|] eqn:St.
  - destruct Hcl as [Hcl | [f' Hr]]; [congruence |].
    unfold os_remove, bind, get_fs, put_fs. simpl. rewrite Hr. simpl.
    destruct (remove_stat _ _ _ Hr) as [_ [Hg Ho]].
    split; [reflexivity |]. split; [reflexivity |]. split; [reflexivity |].
    split; [exact Hg |]. split; [exact Ho |].
    intros q Hq. exact (remove_missing _ _ _ _ Hr Hq).
  - destruct Hcl as [Hcl | [f' Hr]]; [congruence |].
    rewrite (remove_not_dir _ _ _ St) in Hr. discriminate.
  - simpl. repeat split; auto.
Qed.

Lemma clear_ok_inv (p : string) (s s1 : st) :
  remove_if_exists p s = (Ok tt, s1) ->
  logs s1 = logs s /\ out s1 = out s /\ stat (fs s1) p = None.
Proof.
  unfold remove_if_exists, path_exists, bind, get_fs, ret, exists_. simpl.
  destruct (stat (fs s) p) as [[m d|es]|] eqn:St.
  - unfold os_remove, bind, get_fs, put_fs, raise. simpl.
    destruct (remove (fs s) p) as [f'|] eqn:Hr; [| discriminate].
    intros H. injection H as <-. simpl.
    destruct (remove_stat _ _ _ Hr) as [_ [Hg _]]. auto.
  - unfold os_remove, bind, get_fs, put_fs, raise. simpl.
    rewrite (remove_not_dir _ _ _ St). discriminate.
  - intros H. injection H as <-. auto.
Qed.

Lemma diff_and_save_fail (a b p : string) (s1 s2 : st) (e : exn) :
  diff_and_save (Some a) (Some b) p s1 = (Exc e, s2) ->
  stat (fs s1) p = None ->
  clearable (fs s2) p /\ logs s2 = logs s1 /\ out s2 = out s1.
Proof.
  intros H Hn. unfold clearable.
  unfold diff_and_save, image_open_convert, image_save, bind, get_fs, ret, raise in H.
  simpl in H.
  destruct (stat (fs s1) a) as [[m1 [w1 h1|]|es1]|]; simpl in H;
    try (injection H as _ <-; split; [left; exact Hn | split; reflexivity]).
  destruct (stat (fs s1) b) as [[m2 [w2 h2|]|es2]|]; simpl in H;
    try (injection H as _ <-; split; [left; exact Hn | split; reflexivity]).
  destruct (disk_full (fs s1)).
  - destruct (write (fs s1) p (File 0 FRaw)) as [f'|] eqn:W; simpl in H.
    + unfold put_fs in H. simpl in H. injection H as _ <-. simpl.
      split; [right; exact (write_new_removable _ _ _ _ _ Hn W) | split; reflexivity].
    + injection H as _ <-. split; [left; exact Hn | split; reflexivity].
  - destruct (write (fs s1) p _) as [f'|] eqn:W; simpl in H.
    + unfold put_fs in H. discriminate.
    + injection H as _ <-. split; [left; exact Hn | split; reflexivity].
Qed.

End DiffFacts.
Import DiffFacts Spec.

(** C7: when both inputs exist at the checks of lines 20 and 24 and loading,
    differencing or saving (lines 28-31) raises, [createDiff] returns
    normally, no file is left at the output path, the failure message
    naming both inputs is printed, and nothing is written to the report. *)
Theorem C7_diff_failure_cleanup (a b imageDiffPath : string) (s s1 s2 : st) (e : exn) :
  remove_if_exists imageDiffPath s = (Ok tt, s1) ->
  exists_ (fs s1) a = true -> exists_ (fs s1) b = true ->
  diff_and_save (Some a) (Some b) imageDiffPath s1 = (Exc e, s2) ->
  fst (createDiff (Some a) (Some b) imageDiffPath s) = Ok tt /\
  exists_ (fs (snd (createDiff (Some a) (Some b) imageDiffPath s))) imageDiffPath = false /\
  logs (snd (createDiff (Some a) (Some b) imageDiffPath s))
    = (logs s ++ [("Failed to create image diff between: " ++ a ++ ", " ++ b)%string])%list /\
  out (snd (createDiff (Some a) (Some b) imageDiffPath s)) = out s.
Proof.
  intros Hc Ha Hb Hd.
  destruct (clear_ok_inv _ _ _ Hc) as [Hl1 [Ho1 Hn1]].
  destruct (diff_and_save_fail _ _ _ _ _ _ Hd Hn1) as [Hnd2 [Hl2 Ho2]].
  pose proof (clear_spec imageDiffPath s2 Hnd2) as [Hok3 [Hl3 [Ho3 [Hn3 _]]]].
  assert (E : createDiff (Some a) (Some b) imageDiffPath s
              = createDiff_except (Some a) (Some b) imageDiffPath s2).
  { unfold createDiff, try_except, createDiff_try, bind at 1. rewrite Hc.
    unfold path_exists, bind, get_fs, ret. simpl. rewrite Ha. simpl. rewrite Hb. simpl.
    now rewrite Hd. }
  rewrite E. unfold createDiff_except, bind.
  set (R3 := remove_if_exists imageDiffPath s2) in *.
  destruct R3 as [r3 s3]. simpl in *. subst r3. simpl.
  unfold exists_. rewrite Hn3.
  rewrite !str_app_assoc. repeat split; simpl; congruence.
Qed.

Lemma C7_diff_failure_cleanup_witness :
  remove_if_exists "d.png" (start fs_diff) = (Ok tt, start fs_diff) /\
  exists_ (fs (start fs_diff)) "in.png" = true /\
  exists_ (fs (start fs_diff)) "raw.png" = true /\
  diff_and_save (Some "in.png") (Some "raw.png") "d.png" (start fs_diff)
    = (Exc OSError, start fs_diff) /\
  (fst (createDiff (Some "in.png") (Some "raw.png") "d.png" (start fs_diff)) = Ok tt /\
   exists_ (fs (snd (createDiff (Some "in.png") (Some "raw.png") "d.png" (start fs_diff))))
     "d.png" = false /\
   logs (snd (createDiff (Some "in.png") (Some "raw.png") "d.png" (start fs_diff)))
     = (logs (start fs_diff)
        ++ [("Failed to create image diff between: " ++ "in.png" ++ ", " ++ "raw.png")%string])%list /\
   out (snd (createDiff (Some "in.png") (Some "raw.png") "d.png" (start fs_diff)))
     = out (start fs_diff)).
Proof.
  assert (H1 : remove_if_exists "d.png" (start fs_diff) = (Ok tt, start fs_diff))
    by (vm_compute; reflexivity).
  assert (H2 : exists_ (fs (start fs_diff)) "in.png" = true) by reflexivity.
  assert (H3 : exists_ (fs (start fs_diff)) "raw.png" = true) by reflexivity.
  assert (H4 : diff_and_save (Some "in.png") (Some "raw.png") "d.png" (start fs_diff)
                 = (Exc OSError, start fs_diff)) by (vm_compute; reflexivity).
  split; [exact H1 |]. split; [exact H2 |]. split; [exact H3 |]. split; [exact H4 |].
  exact (C7_diff_failure_cleanup "in.png" "raw.png" "d.png" (start fs_diff)
           (start fs_diff) (start fs_diff) OSError H1 H2 H3 H4).
Defined.

Lemma exists_iff_none (f f' : fsys) (q : string) :
  (stat f' q = None <-> stat f q = None) -> exists_ f' q = exists_ f q.
Proof.
  unfold exists_. intros [H1 H2].
  destruct (stat f' q), (stat f q); auto.
  - discriminate (H2 eq_refl).
  - discriminate (H1 eq_refl).
Qed.

(** lines 17-18 leave the existence of any other path as it was, and a
    missing path stays missing *)
Lemma clear_keeps_exists (p x : string) (s : st) :
  clearable (fs s) p ->
  (exists_ (fs s) x = true -> canon (cwd (fs s)) x <> canon (cwd (fs s)) p) ->
  exists_ (fs (snd (remove_if_exists p s))) x = exists_ (fs s) x.
Proof.
  intros Hcl Hx. pose proof (clear_spec p s Hcl) as [_ [_ [_ [_ [Hq Hm]]]]].
  destruct (exists_ (fs s) x) eqn:E.
  - rewrite <- E. apply exists_iff_none, Hq, Hx. reflexivity.
  - unfold exists_ in *. destruct (stat (fs s) x) eqn:St; [discriminate |].
    now rewrite (Hm x St).
Qed.




(* ------------------------------------------------------------------ *)
(** ** Reasoning about runs: triples and frame facts *)

Module HoareFacts.
Import Spec.

Section Triples.
Context (I : st -> st -> Prop) `{PreOrder st I}.

Lemma h_ret {A} (x : A) (R : A -> Prop) : R x -> hoare I (ret x) R.
Proof. intros Hx s. split; [reflexivity | intros y Hy; injection Hy as <-; exact Hx]. Qed.

Lemma h_raise {A} (e : exn) (R : A -> Prop) : hoare I (raise e) R.
Proof. intros s. split; [reflexivity | discriminate]. Qed.

Lemma h_bind {A B} (m : M A) (k : A -> M B) (R : A -> Prop) (R' : B -> Prop) :
  hoare I m R -> (forall x, R x -> hoare I (k x) R') -> hoare I (bind m k) R'.
Proof.
  intros Hm Hk s. unfold bind. destruct (Hm s) as [I1 R1].
  destruct (m s) as [[x|e] s']; simpl in *.
  - destruct (Hk x (R1 x eq_refl) s') as [I2 R2].
    split; [etransitivity; eassumption | exact R2].
  - split; [exact I1 | discriminate].
Qed.

Lemma h_if {A} (b : bool) (m1 m2 : M A) (R : A -> Prop) :
  hoare I m1 R -> hoare I m2 R -> hoare I (if b then m1 else m2) R.
Proof. destruct b; auto. Qed.

Lemma h_frame {A} (m : M A) (R : A -> Prop) :
  (forall s, I s (snd (m s))) -> (forall s x, fst (m s) = Ok x -> R x) -> hoare I m R.
Proof. intros H1 H2 s. split; [apply H1 | apply H2]. Qed.

End Triples.

Lemma grows_preorder {X} (f : st -> list X) (Q : X -> Prop) : PreOrder (grows f Q).
Proof.
  split.
  - intros s. exists []. rewrite app_nil_r. split; [reflexivity | constructor].
  - intros s1 s2 s3 [w1 [E1 F1]] [w2 [E2 F2]]. exists (w1 ++ w2)%list.
    rewrite E2, E1, app_assoc. split; [reflexivity | now apply Forall_app].
Qed.
#[export] Existing Instance grows_preorder.

Lemma keeps_grows {X A} (f : st -> list X) (Q : X -> Prop) (m : M A) :
  keeps f m -> forall s, grows f Q s (snd (m s)).
Proof. intros Hk s. exists []. rewrite app_nil_r, Hk. split; [reflexivity | constructor]. Qed.


Lemma quiet_ret {A} (x : A) : quiet (ret x).
Proof. split; intros s; reflexivity. Qed.

Lemma quiet_raise {A} (e : exn) : quiet (A := A) (raise e).
Proof. split; intros s; reflexivity. Qed.

Lemma quiet_bind {A B} (m : M A) (k : A -> M B) :
  quiet m -> (forall x, quiet (k x)) -> quiet (bind m k).
Proof.
  intros [H1 H2] Hk. split; intros s; unfold bind;
    specialize (H1 s); specialize (H2 s);
    destruct (m s) as [[x|e] s']; simpl in *; auto;
    destruct (Hk x) as [K1 K2]; congruence.
Qed.

Lemma quiet_try {A} (m : M A) (h : exn -> M A) :
  quiet m -> (forall e, quiet (h e)) -> quiet (try_except m h).
Proof.
  intros [H1 H2] Hh. split; intros s; unfold try_except;
    specialize (H1 s); specialize (H2 s);
    destruct (m s) as [[x|e] s']; simpl in *; auto;
    destruct (Hh e) as [K1 K2]; congruence.
Qed.

Lemma quiet_if {A} (b : bool) (m1 m2 : M A) :
  quiet m1 -> quiet m2 -> quiet (if b then m1 else m2).
Proof. destruct b; auto. Qed.

Lemma quiet_get_fs : quiet get_fs.
Proof. split; intros s; reflexivity. Qed.

Lemma quiet_put_fs (f : fsys) : quiet (put_fs f).
Proof. split; intros s; reflexivity. Qed.

Lemma quiet_print (msg : string) : quiet (print msg).
Proof. split; intros s; reflexivity. Qed.

Create HintDb quiet.
#[export] Hint Resolve quiet_ret quiet_raise quiet_bind quiet_try quiet_if
  quiet_get_fs quiet_put_fs quiet_print : quiet.

Ltac quiet_auto :=
  repeat first
    [ apply quiet_bind; [| intros ?]
    | apply quiet_try; [| intros ?]
    | apply quiet_if
    | progress auto with quiet
    | match goal with |- quiet (match ?x with _ => _ end) => destruct x end ].

Lemma quiet_path_exists (p : option string) : quiet (path_exists p).
Proof. unfold path_exists. quiet_auto. Qed.

Lemma quiet_path_isfile (p : option string) : quiet (path_isfile p).
Proof. unfold path_isfile. quiet_auto. Qed.

Lemma quiet_getmtime (p : option string) : quiet (getmtime p).
Proof. unfold getmtime. quiet_auto. Qed.

Lemma quiet_os_remove (p : string) : quiet (os_remove p).
Proof. unfold os_remove. quiet_auto. Qed.

Lemma quiet_str_concat (a : string) (b : option string) : quiet (str_concat a b).
Proof. unfold str_concat. quiet_auto. Qed.

Lemma quiet_image_open_convert (p : option string) : quiet (image_open_convert p).
Proof. unfold image_open_convert. quiet_auto. Qed.

Lemma quiet_image_save (i : nat * nat) (p : string) : quiet (image_save i p).
Proof. unfold image_save. quiet_auto. Qed.

Lemma quiet_open_w (p : string) : quiet (open_w p).
Proof. unfold open_w. quiet_auto. Qed.

#[export] Hint Resolve quiet_path_exists quiet_path_isfile quiet_getmtime quiet_os_remove
  quiet_str_concat quiet_image_open_convert quiet_image_save quiet_open_w : quiet.

Lemma quiet_createDiff (a b : option string) (p : string) : quiet (createDiff a b p).
Proof.
  unfold createDiff, createDiff_try, createDiff_except, remove_if_exists, diff_and_save.
  quiet_auto.
Qed.

Lemma quiet_call_createDiff_out (a b : option string) (p : string) :
  keeps out (call_createDiff a b p).
Proof.
  intros s. unfold call_createDiff, bind, ghost_diff. simpl.
  rewrite (proj1 (quiet_createDiff a b p)). reflexivity.
Qed.

Lemma quiet_out {A} (m : M A) : quiet m -> keeps out m.
Proof. now intros []. Qed.

Lemma quiet_dc {A} (m : M A) : quiet m -> keeps diff_calls m.
Proof. now intros []. Qed.

Lemma keeps_dc_fh_write (l : nat) (t : string) : keeps diff_calls (fh_write l t).
Proof. intros s. reflexivity. Qed.

Lemma keeps_bind {X A B} (f : st -> X) (m : M A) (k : A -> M B) :
  keeps f m -> (forall x, keeps f (k x)) -> keeps f (bind m k).
Proof.
  intros Hm Hk s. unfold bind. specialize (Hm s).
  destruct (m s) as [[x|e] s']; simpl in *; [rewrite Hk|]; exact Hm.
Qed.

Lemma keeps_dc_timestamp (e : env) (a : args) (l : nat) (p : option string) :
  keeps diff_calls (timestamp e a l p).
Proof.
  unfold timestamp. apply keeps_bind.
  - destruct (ENABLE_TIMESTAMPS a); [apply quiet_path_isfile | apply quiet_ret].
  - intros [|]; [apply keeps_bind; [apply quiet_getmtime | intros; apply keeps_dc_fh_write]
                 | apply quiet_ret].
Qed.

(** the structural rules for the [let*] chains of [main] *)
Lemma h_bind_ret {A B} I (x : A) (k : A -> M B) (R : B -> Prop) :
  hoare I (k x) R -> hoare I (bind (ret x) k) R.
Proof. intros H s. exact (H s). Qed.

Lemma h_bind_raise {A B} I `{Reflexive st I} (e : exn) (k : A -> M B) (R : B -> Prop) :
  hoare I (bind (raise e) k) R.
Proof. intros s. split; [reflexivity | discriminate]. Qed.

Lemma h_bind_assoc {A B C} I (m : M A) (k1 : A -> M B) (k2 : B -> M C) (R : C -> Prop) :
  hoare I (bind m (fun x => bind (k1 x) k2)) R -> hoare I (bind (bind m k1) k2) R.
Proof.
  intros H s. specialize (H s). unfold bind in *.
  destruct (m s) as [[x|e] s1]; exact H.
Qed.

Lemma h_when_truthy I `{Reflexive st I} (p : option string) (k : string -> M unit) :
  (forall q, hoare I (k q) (fun _ => True)) -> hoare I (when_truthy p k) (fun _ => True).
Proof.
  intros Hk s. destruct p as [q|]; simpl.
  - destruct (String.eqb q ""); [split; [reflexivity | auto] | apply Hk].
  - split; [reflexivity | auto].
Qed.

Lemma h_keeps {X A} (f : st -> list X) (Q : X -> Prop) (m : M A) :
  keeps f m -> hoare (grows f Q) m (fun _ => True).
Proof. intros Hk s. split; [apply keeps_grows, Hk | auto]. Qed.

Lemma h_fh_write (Q : nat * string -> Prop) (l : nat) (t : string) :
  Q (l, t) -> hoare (grows out Q) (fh_write l t) (fun _ => True).
Proof. intros Hq s. split; [exists [(l, t)]; split; [reflexivity | now constructor] | auto]. Qed.

Lemma h_ghost_diff (Q : string -> Prop) (d : string) :
  Q d -> hoare (grows diff_calls Q) (ghost_diff d) (fun _ => True).
Proof. intros Hq s. split; [exists [d]; split; [reflexivity | now constructor] | auto]. Qed.

Lemma h_call_createDiff (Q : string -> Prop) (a b : option string) (d : string) :
  Q d -> hoare (grows diff_calls Q) (call_createDiff a b d) (fun _ => True).
Proof.
  intros Hq. unfold call_createDiff. eapply (h_bind _ _ _ (fun _ => True)).
  - now apply h_ghost_diff.
  - intros _ _. apply h_keeps, quiet_dc, quiet_createDiff.
Qed.

Ltac hreduce :=
  cbn beta iota zeta delta [fst snd negb andb orb String.eqb
    sourceFile sourcePath destFile destPath destFile2 destPath2].

(** one step through a [let*] chain; [solver] discharges a primitive *)
Ltac hstep solver :=
  match goal with
  | |- hoare _ (bind (raise _) _) _ => apply h_bind_raise
  | |- hoare _ (bind (ret _) _) _ => apply h_bind_ret; hreduce
  | |- hoare _ (bind (when_truthy None _) _) _ => cbn [when_truthy]
  | |- hoare _ (when_truthy None _) _ => cbn [when_truthy]
  | |- hoare _ (bind (bind _ _) _) _ => apply h_bind_assoc
  | |- hoare _ (bind (match ?x with _ => _ end) _) _ => destruct x eqn:?; hreduce
  | |- hoare _ (match ?x with _ => _ end) _ => destruct x eqn:?; hreduce
  | |- hoare ?I (bind (when_truthy _ _) _) _ =>
      eapply (h_bind I _ _ (fun _ => True));
        [refine (h_when_truthy _ _ _ _); intros ?; solver | intros ? _]
  | |- hoare _ (when_truthy _ _) _ => refine (h_when_truthy _ _ _ _); intros ?; solver
  | |- hoare ?I (bind _ _) _ =>
      eapply (h_bind I _ _ (fun _ => True)); [solver | intros ? _]
  | |- hoare _ (ret _) _ => apply h_ret; try exact I
  | |- hoare _ (raise _) _ => apply h_raise
  | |- hoare _ _ _ => solver
  | |- PreOrder _ => typeclasses eauto
  | |- Reflexive _ => typeclasses eauto
  end.

End HoareFacts.

Import Spec HoareFacts.

Module RowFacts.

Ltac out_solver :=
  first [ apply h_fh_write; cbv [no_dest2 dest2_cell_lines fst In]; intuition congruence
        | apply h_keeps; first [ apply quiet_call_createDiff_out
                               | apply quiet_out; solve [auto with quiet] ] ].

Lemma row_step_nothird e a sf sp df dp cp :
  hoare (grows out no_dest2) (row_step e a false (mkrow sf sp df dp "" None) cp None)
    (fun _ => False).
Proof.
  unfold row_step, join_if, diff_name_of, read_local. hreduce.
  repeat hstep out_solver.
Qed.

Lemma row_loop_nothird e a rows cp :
  Forall (fun r => destFile2 r = "" /\ destPath2 r = None) rows ->
  hoare (grows out no_dest2) (row_loop e a false rows cp None) (fun _ => True).
Proof.
  destruct rows as [|[sf sp df dp df2 dp2] rows]; simpl; intros Hr.
  - exact (h_ret _ tt _ I).
  - inversion Hr as [|? ? [H1 H2] _]; simpl in H1, H2; subst.
    eapply (h_bind _ _ _ (fun _ => False)); [apply row_step_nothird | intros ? []].
Qed.

Lemma main_nothird e a :
  useThirdLang a = false -> hoare (grows out no_dest2) (main e a) (fun _ => True).
Proof.
  intros Ht. unfold main. rewrite Ht. hreduce.
  repeat hstep ltac:(first
    [ out_solver
    | apply row_loop_nothird; apply Forall_forall; intros r Hr;
      apply in_map_iff in Hr as [[sf sp] [<- _]]; split; reflexivity ]).
Qed.

Ltac dc_solver :=
  first [ refine (h_call_createDiff _ _ _ _ _); do 4 eexists;
          split; [eassumption | split; [| reflexivity]; cbn; auto]
        | apply h_keeps; first [ apply keeps_dc_fh_write | apply keeps_dc_timestamp
                               | apply quiet_dc; solve [auto with quiet] ] ].

Lemma row_step_diffs e a in2 third srcs sf sp cp d3 :
  In (sf, sp) srcs ->
  hoare (grows diff_calls (diff_artifact a srcs))
    (row_step e a third (resolve_row a in2 third (sf, sp)) cp d3) (fun _ => True).
Proof.
  intros Hs. unfold row_step, resolve_row, join_if, diff_name_of, read_local. hreduce.
  destruct (dest1_on a in2), third; hreduce;
  repeat hstep dc_solver.
Qed.

Lemma row_loop_diffs e a in2 third srcs srcs' cp d3 :
  Forall (fun src => In src srcs) srcs' ->
  hoare (grows diff_calls (diff_artifact a srcs))
    (row_loop e a third (map (resolve_row a in2 third) srcs') cp d3) (fun _ => True).
Proof.
  revert cp d3. induction srcs' as [|[sf sp] srcs' IH]; simpl; intros cp d3 Hs.
  - exact (h_ret _ tt _ I).
  - inversion Hs as [|? ? H1 H2]; subst.
    eapply (h_bind _ _ _ (fun _ => True)); [now apply row_step_diffs | intros [c d] _].
    now apply IH.
Qed.

Lemma bind_Ok_eq {A B} (m : M A) (k : A -> M B) s x s1 :
  m s = (Ok x, s1) -> bind m k s = k x s1.
Proof. intros H. unfold bind. rewrite H. reflexivity. Qed.

Lemma open_w_ok p s f' :
  write (fs s) p (File 0 FRaw) = Some f' ->
  open_w p s = (Ok tt, mkst f' (logs s) (out s) (diff_calls s)).
Proof. intros H. unfold open_w, bind, get_fs, put_fs. simpl. rewrite H. reflexivity. Qed.

Lemma bind_fh_write {B} l t (k : unit -> M B) s :
  bind (fh_write l t) k s = k tt (mkst (fs s) (logs s) (out s ++ [(l, t)]) (diff_calls s)).
Proof. reflexivity. Qed.

Lemma bind_get_fs {B} (k : fsys -> M B) s : bind get_fs k s = k (fs s) s.
Proof. reflexivity. Qed.

Lemma bind_print {B} m (k : unit -> M B) s :
  bind (print m) k s = k tt (mkst (fs s) (logs s ++ [m]) (out s) (diff_calls s)).
Proof. reflexivity. Qed.

Lemma bind_ret_l {A B} (x : A) (k : A -> M B) s : bind (ret x) k s = k x s.
Proof. reflexivity. Qed.

Ltac run_step lem := rewrite lem; cbn beta iota delta [fs logs out diff_calls].

(** line 56 raises when the report cannot be opened *)
Lemma main_open_fails e a s :
  write (fs s) (outputfile a) (File 0 FRaw) = None -> main e a s = (Exc OSError, s).
Proof.
  intros Hw. unfold main, bind at 1, open_w, bind at 1, get_fs. simpl.
  rewrite Hw. reflexivity.
Qed.

(** what a run does from line 57 on, once the report is open on [f']:
    every [createDiff] output is named after a file discovered in [f'] *)
Lemma main_diffs e a s f' :
  write (fs s) (outputfile a) (File 0 FRaw) = Some f' ->
  grows diff_calls (diff_artifact a (discover f' (inputdir a) (sourcelang a)))
    s (snd (main e a s)).
Proof.
  intros Hw. unfold main at 1. rewrite (bind_Ok_eq _ _ _ _ _ (open_w_ok _ _ _ Hw)).
  destruct (negb (DIFF_ENABLED e) && CREATE_DIFF a).
  all: do 13 run_step @bind_fh_write; run_step @bind_get_fs; run_step @bind_fh_write.
  1: run_step @bind_print.
  2: run_step @bind_ret_l.
  all: run_step @bind_get_fs.
  all: match goal with |- grows _ _ _ (snd (?m ?S)) =>
    assert (Hk : hoare (grows diff_calls (diff_artifact a (discover f' (inputdir a) (sourcelang a))))
                   m (fun _ => True));
    [| exact (proj1 (Hk S))] end.
  all: repeat hstep ltac:(first
    [ dc_solver
    | apply row_loop_diffs; apply Forall_forall; intros src Hin; exact Hin ]).
Qed.

End RowFacts.

Import RowFacts.

(* ------------------------------------------------------------------ *)
(** ** What a run writes *)

(** C2: when no third language is in use ([useThirdLang] is false: empty
    [destlang2], or [inputdir3 = inputdir] and [destlang2 = sourcelang]),
    every chunk the run appends to the report comes from a line other than
    those of the destination-2 cells: the image cells of [fullDestPath2],
    [diffPath2] and [diffPath3] (lines 166, 170, 172) and their caption
    cells (lines 187, 189, 190, 194, 196). This holds whether the run ends
    normally or by an exception. *)
Theorem C2_no_dest2_cells_without_third_lang (e : env) (a : args) (s : st) :
  useThirdLang a = false ->
  exists w, out (snd (main e a s)) = (out s ++ w)%list /\
            Forall (fun p => ~ In (fst p) dest2_cell_lines) w.
Proof. intros H. exact (proj1 (main_nothird e a H s)). Qed.

Lemma C2_no_dest2_cells_without_third_lang_witness :
  useThirdLang args_A = false /\
  exists w, out (snd (main env_pil args_A (start fs_A))) = (out (start fs_A) ++ w)%list /\
            Forall (fun p => ~ In (fst p) dest2_cell_lines) w.
Proof.
  split; [reflexivity |].
  apply (C2_no_dest2_cells_without_third_lang env_pil args_A (start fs_A)).
  reflexivity.
Defined.

(** C5 witness: the row of [foo_glsl.png] under [-i A -i2 A]. *)
Lemma C5_dest1_absent_iff_same_root_and_lang_witness :
  In row_A (rows_of fs_A args_A) /\
  (inputdir args_A = inputdir2_eff args_A /\ sourcelang args_A = destlang args_A ->
     destFile row_A = "" /\ destPath row_A = None) /\
  (~ (inputdir args_A = inputdir2_eff args_A /\ sourcelang args_A = destlang args_A) ->
     destFile row_A <> "" /\
     destPath row_A = Some (join (inputdir2_eff args_A) (sourcePath row_A))).
Proof.
  split; [vm_compute; left; reflexivity |].
  apply (C5_dest1_absent_iff_same_root_and_lang fs_A args_A row_A).
  vm_compute. left. reflexivity.
Defined.

(** C8: every path [main] passes to [createDiff] as [imageDiffPath] (lines
    143, 149 and 151) is the full path [os.path.join(sourcePath,
    sourceFile)] of a source image the walk of lines 92-96 discovered (in
    the filesystem as it is once line 56 has opened the report) with its
    last 8 characters removed, followed by [_<langA>_vs_<langB>_diff.png],
    for [(langA, langB)] one of [(sourcelang, destlang)],
    [(sourcelang, destlang2)] and [(destlang, destlang2)]. *)
Theorem C8_diff_paths_named_after_source (e : env) (a : args) (s : st) :
  exists w, diff_calls (snd (main e a s)) = (diff_calls s ++ w)%list /\
    Forall (fun d => exists f' sourcePath sourceFile langA langB,
              write (fs s) (outputfile a) (File 0 FRaw) = Some f' /\
              In (sourceFile, sourcePath) (discover f' (inputdir a) (sourcelang a)) /\
              endswith sourceFile (sourcelang a ++ ".png") = true /\
              In (langA, langB) [(sourcelang a, destlang a); (sourcelang a, destlang2 a);
                                 (destlang a, destlang2 a)] /\
              d = slice_neg (join sourcePath sourceFile) 8
                  ++ "_" ++ langA ++ "_vs_" ++ langB ++ "_diff.png") w.
Proof.
  destruct (write (fs s) (outputfile a) (File 0 FRaw)) as [f'|] eqn:Hw.
  - destruct (main_diffs e a s f' Hw) as [w [H1 H2]]. exists w. split; [exact H1 |].
    eapply Forall_impl; [| exact H2]. intros d (sp & sf & la & lb & Hin & Hl & ->).
    exists f', sp, sf, la, lb. split; [reflexivity |]. split; [exact Hin |].
    split; [exact (proj1 (discover_spec _ _ _ _ _ Hin)) |]. split; [exact Hl | reflexivity].
  - exists []. split; [| constructor]. rewrite (main_open_fails e a s Hw). simpl.
    now rewrite app_nil_r.
Qed.

(** With [-i A -i2 A -d] and Pillow installed, the one diff of [A/foo_glsl.png]
    is [A/foo__glsl_vs_osl_diff.png]: the 8 characters removed are
    [glsl.png], so the underscore before the language stays. *)
Lemma diff_name_of_run_A :
  diff_calls (snd (main env_pil
    (mkargs "A" "A" "." "tests.html" true false 256 256 0 3 "glsl" "osl" "")
    (start fs_A))) = ["A/foo__glsl_vs_osl_diff.png"].
Proof. vm_compute. reflexivity. Qed.

(* ------------------------------------------------------------------ *)
(** ** Runs that stop early *)

Module StopFacts.

Lemma any_step_preorder : PreOrder any_step.
Proof. split; intros ?; unfold any_step; auto. Qed.
#[export] Existing Instance any_step_preorder.

Lemma h_any {A} (m : M A) : hoare any_step m (fun _ => True).
Proof. intros s. split; [exact I | auto]. Qed.

Lemma createDiff_none_exc (b : option string) (p : string) (s : st) :
  exists e, fst (createDiff None b p s) = Exc e.
Proof.
  unfold createDiff, try_except, createDiff_try, createDiff_except, bind.
  destruct (remove_if_exists p s) as [[[]|e1] s1]; simpl;
  [destruct (remove_if_exists p s1) as [[[]|e2] s2]
  | destruct (remove_if_exists p s1) as [[[]|e2] s2]]; simpl; eauto.
Qed.

Lemma h_call_createDiff_none (b : option string) (p : string) :
  hoare any_step (call_createDiff None b p) (fun _ => False).
Proof.
  intros s. split; [exact I |]. intros x Hx.
  unfold call_createDiff, bind, ghost_diff in Hx. simpl in Hx.
  destruct (createDiff_none_exc b p
              (mkst (fs s) (logs s) (out s) (diff_calls s ++ [p])%list)) as [e He].
  destruct (createDiff None b p _) as [[]]; simpl in *; congruence.
Qed.

(** the first row ends in an exception unless the three-language diff
    branch runs with destination 1 present *)
Lemma row_step_first_raises e a in2 third src :
  third && DIFF_ENABLED e && CREATE_DIFF a && dest1_on a in2 = false ->
  hoare any_step (row_step e a third (resolve_row a in2 third src) "" None)
    (fun _ => False).
Proof.
  intros Hc. unfold row_step, resolve_row, join_if, diff_name_of, read_local. hreduce.
  destruct third, (DIFF_ENABLED e), (CREATE_DIFF a), (dest1_on a in2);
    try discriminate; hreduce;
  repeat first
    [ match goal with
      | |- hoare ?I (bind (call_createDiff None _ _) _) _ =>
          eapply (h_bind I _ _ (fun _ => False));
            [apply h_call_createDiff_none | intros ? []]
      end
    | hstep ltac:(apply h_any) ].
Qed.

Lemma bind_ok {A B} (m : M A) (k : A -> M B) (s : st) (x : B) :
  fst (bind m k s) = Ok x -> exists y s1, m s = (Ok y, s1) /\ fst (k y s1) = Ok x.
Proof. unfold bind. destruct (m s) as [[y|e] s1]; simpl; eauto; discriminate. Qed.

(** Going through [main] up to the loop of line 128: the header writes,
    the [print] and the two [get_fs] leave the filesystem as [open]
    left it. *)
Lemma main_reaches_loop e a s f' :
  write (fs s) (outputfile a) (File 0 FRaw) = Some f' ->
  fst (main e a s) = Ok tt ->
  exists s1, fst (match discover f' (inputdir a) (sourcelang a) with
                  | [] => ret tt
                  | _ :: _ =>
                      row_loop e a (useThirdLang a)
                        (map (resolve_row a (inputdir2_eff a) (useThirdLang a))
                             (discover f' (inputdir a) (sourcelang a))) "" None
                  end s1) = Ok tt.
Proof.
  intros Hw H. unfold main in H.
  apply bind_ok in H as (y & s1 & Hm & H).
  unfold open_w, bind, get_fs in Hm. simpl in Hm. rewrite Hw in Hm. injection Hm as <- <-.
  repeat (apply bind_ok in H as (? & ? & Hm & H);
          first [ unfold fh_write in Hm; injection Hm as <- <-
                | unfold get_fs in Hm; injection Hm as <- <-
                | match type of Hm with
                  | (if ?c then _ else _) _ = _ =>
                      destruct c; unfold print, ret in Hm; injection Hm as <- <-
                  end ];
          cbv beta in H).
  all: apply bind_ok in H as ([] & s2 & Hm & _); eexists; exact (f_equal fst Hm).
Qed.

End StopFacts.

(** When diffs are off, a run changes no file: [fs] and the ghost
    [diff_calls] are kept by every step after [open]. *)
Module FootFacts.

Lemma fs_kept_preorder : PreOrder fs_kept.
Proof.
  split; intros ?; unfold fs_kept; [auto | intros ? ? [] []; split; congruence].
Qed.
#[export] Existing Instance fs_kept_preorder.

Lemma h_fs_kept {A} (m : M A) :
  keeps fs m -> keeps diff_calls m -> hoare fs_kept m (fun _ => True).
Proof. intros H1 H2 s. split; [split; [apply H1 | apply H2] | auto]. Qed.

Create HintDb fsk.

Lemma keeps_fs_ret {A} (x : A) : keeps fs (ret x).
Proof. intros s. reflexivity. Qed.
Lemma keeps_fs_raise {A} (e : exn) : keeps fs (@raise A e).
Proof. intros s. reflexivity. Qed.
Lemma keeps_fs_get_fs : keeps fs get_fs.
Proof. intros s. reflexivity. Qed.
Lemma keeps_fs_fh_write l t : keeps fs (fh_write l t).
Proof. intros s. reflexivity. Qed.
Lemma keeps_fs_print msg : keeps fs (print msg).
Proof. intros s. reflexivity. Qed.
Lemma keeps_fs_path_isfile p : keeps fs (path_isfile p).
Proof. intros s. destruct p; reflexivity. Qed.
Lemma keeps_fs_getmtime p : keeps fs (getmtime p).
Proof.
  intros s. destruct p as [q|]; [|reflexivity]. unfold getmtime, bind, get_fs; simpl.
  destruct (stat (fs s) q) as [[? ?|?]|]; reflexivity.
Qed.
Lemma keeps_fs_timestamp e a l p : keeps fs (timestamp e a l p).
Proof.
  unfold timestamp. apply keeps_bind.
  - destruct (ENABLE_TIMESTAMPS a); [apply keeps_fs_path_isfile | apply keeps_fs_ret].
  - intros [|]; [apply keeps_bind; [apply keeps_fs_getmtime | intros; apply keeps_fs_fh_write]
                 | apply keeps_fs_ret].
Qed.

#[export] Hint Resolve keeps_fs_ret keeps_fs_raise keeps_fs_get_fs keeps_fs_fh_write
  keeps_fs_print keeps_fs_path_isfile keeps_fs_getmtime keeps_fs_timestamp
  keeps_dc_fh_write keeps_dc_timestamp quiet_dc : fsk.
#[export] Hint Resolve quiet_ret quiet_raise quiet_get_fs quiet_print
  quiet_path_isfile quiet_getmtime : fsk.

Ltac fsk_solver := apply h_fs_kept; solve [auto with fsk].

Lemma row_step_fs_kept e a third r cp d3 :
  DIFF_ENABLED e && CREATE_DIFF a = false ->
  hoare fs_kept (row_step e a third r cp d3) (fun _ => True).
Proof.
  intros Hc. unfold row_step, join_if, diff_name_of, read_local. hreduce.
  destruct (DIFF_ENABLED e), (CREATE_DIFF a); try discriminate;
    rewrite ?andb_false_r; hreduce;
    repeat hstep fsk_solver.
Qed.

Lemma row_loop_fs_kept e a third rows cp d3 :
  DIFF_ENABLED e && CREATE_DIFF a = false ->
  hoare fs_kept (row_loop e a third rows cp d3) (fun _ => True).
Proof.
  intros Hc. revert cp d3. induction rows as [|r rows IH]; simpl; intros cp d3.
  - exact (h_ret _ tt _ I).
  - eapply (h_bind _ _ _ (fun _ => True));
      [apply row_step_fs_kept, Hc | intros [c d] _; apply IH].
Qed.

Lemma main_fs_kept e a s f' :
  write (fs s) (outputfile a) (File 0 FRaw) = Some f' ->
  DIFF_ENABLED e && CREATE_DIFF a = false ->
  fs_kept (mkst f' (logs s) (out s) (diff_calls s)) (snd (main e a s)).
Proof.
  intros Hw Hc. unfold main at 1. rewrite (bind_Ok_eq _ _ _ _ _ (open_w_ok _ _ _ Hw)).
  match goal with |- fs_kept ?s1 (snd (?m ?s1)) =>
    assert (Hk : hoare fs_kept m (fun _ => True)); [| exact (proj1 (Hk s1))] end.
  hreduce.
  repeat hstep ltac:(first [ fsk_solver | apply row_loop_fs_kept, Hc ]).
Qed.

End FootFacts.

(* ------------------------------------------------------------------ *)
(** ** Further properties of [createDiff] *)

(** A [None] first input ([fullDestPath] of a row without destination 1,
    line 151) makes [createDiff] raise, whatever the rest: [os.stat(None)]
    raises at line 20, and the handler's message [... + None] raises
    again at line 35. *)
Theorem createDiff_none_first_input_raises (image2Path : option string)
  (imageDiffPath : string) (s : st) :
  exists e, fst (createDiff None image2Path imageDiffPath s) = Exc e.
Proof.
  exact (StopFacts.createDiff_none_exc image2Path imageDiffPath s).
Qed.

(** With two path strings and an output path that is free or holds what
    [os.remove] can delete, [createDiff] always returns normally: a missing
    input, a decoding failure or a failed save all end in the handler,
    which cannot fail there (the only file it may have to remove is one
    the failed save has just created). *)
Theorem createDiff_returns_normally (a b imageDiffPath : string) (s : st) :
  clearable (fs s) imageDiffPath ->
  fst (createDiff (Some a) (Some b) imageDiffPath s) = Ok tt.
Proof.
  intros Hcl.
  pose proof (clear_spec imageDiffPath s Hcl) as [Hok1 [_ [_ [Hn1 _]]]].
  destruct (remove_if_exists imageDiffPath s) as [r1 s1] eqn:E1.
  simpl in *. subst r1.
  unfold createDiff, try_except, createDiff_try, bind at 1. rewrite E1.
  unfold path_exists, bind, get_fs, ret. simpl.
  destruct (exists_ (fs s1) a); simpl; [| reflexivity].
  destruct (exists_ (fs s1) b); simpl; [| reflexivity].
  destruct (diff_and_save (Some a) (Some b) imageDiffPath s1) as [[[]|e] s2] eqn:E2;
    [reflexivity |].
  destruct (diff_and_save_fail _ _ _ _ _ _ E2 Hn1) as [Hnd2 _].
  pose proof (clear_spec imageDiffPath s2 Hnd2) as [Hok3 _].
  unfold createDiff_except, bind.
  destruct (remove_if_exists imageDiffPath s2) as [r3 s3]. simpl in Hok3. subst r3.
  reflexivity.
Qed.

Lemma createDiff_returns_normally_witness :
  clearable (fs (start fs_diff)) "d.png" /\
  fst (createDiff (Some "in.png") (Some "raw.png") "d.png" (start fs_diff)) = Ok tt.
Proof.
  assert (H : clearable (fs (start fs_diff)) "d.png") by (left; vm_compute; reflexivity).
  split; [exact H | exact (createDiff_returns_normally _ _ _ _ H)].
Defined.



(* ------------------------------------------------------------------ *)
(** ** Further properties of [main] *)

Import StopFacts.


(** A run that finds at least one source file ends normally only if a
    third language is in use, Pillow is installed, [--diff] is given and
    destination 1 is computed. Otherwise the first row raises: reading the
    unassigned [diffPath3] (line 171), or calling [createDiff] with
    [fullDestPath = None] (line 151). *)
Theorem main_completes_only_with_three_way_diffs (e : env) (a : args) (s : st) (f' : fsys) :
  write (fs s) (outputfile a) (File 0 FRaw) = Some f' ->
  discover f' (inputdir a) (sourcelang a) <> [] ->
  fst (main e a s) = Ok tt ->
  useThirdLang a = true /\ DIFF_ENABLED e = true /\ CREATE_DIFF a = true /\
  dest1_on a (inputdir2_eff a) = true.
Proof.
  intros Hw Hd H. destruct (main_reaches_loop e a s f' Hw H) as [s1 H1].
  destruct (useThirdLang a && DIFF_ENABLED e && CREATE_DIFF a && dest1_on a (inputdir2_eff a))
    eqn:Hc.
  - apply andb_prop in Hc as [Hc H4]. apply andb_prop in Hc as [Hc H3].
    apply andb_prop in Hc as [H1' H2]. tauto.
  - exfalso.
    destruct (discover f' (inputdir a) (sourcelang a)) as [|src srcs]; [contradiction |].
    simpl in H1.
    assert (HB : hoare any_step
                   (bind (row_step e a (useThirdLang a)
                            (resolve_row a (inputdir2_eff a) (useThirdLang a) src) "" None)
                         (fun c => row_loop e a (useThirdLang a)
                                     (map (resolve_row a (inputdir2_eff a) (useThirdLang a)) srcs)
                                     (fst c) (snd c)))
                   (fun _ => False)).
    { eapply (h_bind _ _ _ (fun _ => False)); [apply row_step_first_raises, Hc | intros ? []]. }
    exact (proj2 (HB s1) tt H1).
Qed.

Lemma main_completes_only_with_three_way_diffs_witness :
  write (fs (start fs_A)) (outputfile args_full) (File 0 FRaw) = Some fs_A_out /\
  discover fs_A_out (inputdir args_full) (sourcelang args_full) <> [] /\
  fst (main env_pil args_full (start fs_A)) = Ok tt /\
  (useThirdLang args_full = true /\ DIFF_ENABLED env_pil = true /\
   CREATE_DIFF args_full = true /\ dest1_on args_full (inputdir2_eff args_full) = true).
Proof.
  assert (H1 : write (fs (start fs_A)) (outputfile args_full) (File 0 FRaw) = Some fs_A_out)
    by (vm_compute; reflexivity).
  assert (H2 : discover fs_A_out (inputdir args_full) (sourcelang args_full) <> [])
    by (vm_compute; discriminate).
  assert (H3 : fst (main env_pil args_full (start fs_A)) = Ok tt) by (vm_compute; reflexivity).
  split; [exact H1 |]. split; [exact H2 |]. split; [exact H3 |].
  exact (main_completes_only_with_three_way_diffs env_pil args_full (start fs_A) fs_A_out
           H1 H2 H3).
Defined.

(** With Pillow missing or [--diff] not given, a run whose report file
    opens changes no other file: the filesystem at the end is the one right
    after line 56 opened the report, whether the run ends normally or not,
    and [createDiff] is never called. *)
Theorem main_without_diffs_touches_only_report (e : env) (a : args) (s : st) (f' : fsys) :
  write (fs s) (outputfile a) (File 0 FRaw) = Some f' ->
  DIFF_ENABLED e && CREATE_DIFF a = false ->
  fs (snd (main e a s)) = f' /\ diff_calls (snd (main e a s)) = diff_calls s.
Proof.
  intros Hw Hc. destruct (FootFacts.main_fs_kept e a s f' Hw Hc) as [H1 H2].
  split; [exact H1 | exact H2].
Qed.

Lemma main_without_diffs_touches_only_report_witness :
  write (fs (start fs_A)) (outputfile args_full) (File 0 FRaw) = Some fs_A_out /\
  DIFF_ENABLED (mkenv false (fun _ => "")) && CREATE_DIFF args_full = false /\
  (fs (snd (main (mkenv false (fun _ => "")) args_full (start fs_A))) = fs_A_out /\
   diff_calls (snd (main (mkenv false (fun _ => "")) args_full (start fs_A)))
     = diff_calls (start fs_A)).
Proof.
  assert (H1 : write (fs (start fs_A)) (outputfile args_full) (File 0 FRaw) = Some fs_A_out)
    by (vm_compute; reflexivity).
  assert (H2 : DIFF_ENABLED (mkenv false (fun _ => "")) && CREATE_DIFF args_full = false)
    by reflexivity.
  split; [exact H1 |]. split; [exact H2 |].
  exact (main_without_diffs_touches_only_report (mkenv false (fun _ => "")) args_full
           (start fs_A) fs_A_out H1 H2).
Defined.

(* ------------------------------------------------------------------ *)
(** ** Further properties of the resolver (lines 89-124) *)

(** For every discovered source file: when a third language is in use,
    destination 2 is the source file name with the trailing
    [<sourcelang>.png] replaced by [<destlang2>.png], looked up in
    [inputdir2] (after defaulting), not in [inputdir3]; otherwise
    destination 2 is empty. *)
Theorem dest2_from_inputdir2 (f : fsys) (a : args) (r : row) :
  In r (rows_of f a) ->
  (useThirdLang a = true ->
   exists prefix,
     sourceFile r = prefix ++ sourcelang a ++ ".png" /\
     destFile2 r = prefix ++ destlang2 a ++ ".png" /\
     destPath2 r = Some (join (inputdir2_eff a) (sourcePath r))) /\
  (useThirdLang a = false -> destFile2 r = "" /\ destPath2 r = None).
Proof.
  unfold rows_of. intros Hr. apply in_map_iff in Hr as [[sf sp] [<- Hin]].
  apply discover_spec in Hin as [Hsuf _].
  unfold resolve_row; simpl. split; intros Ht; rewrite Ht; simpl.
  - exists (slice_neg sf (length (chars (sourcelang a ++ ".png")))).
    split; [exact (endswith_split _ _ Hsuf) | split; reflexivity].
  - split; reflexivity.
Qed.

Lemma dest2_from_inputdir2_witness :
  In (mkrow "foo_glsl.png" "A" "foo_osl.png" (Some "A/A") "foo_mdl.png" (Some "A/A"))
     (rows_of fs_A args_full) /\
  (useThirdLang args_full = true ->
   exists prefix,
     "foo_glsl.png" = prefix ++ sourcelang args_full ++ ".png" /\
     "foo_mdl.png" = prefix ++ destlang2 args_full ++ ".png" /\
     Some "A/A" = Some (join (inputdir2_eff args_full) "A")) /\
  (useThirdLang args_full = false -> "foo_mdl.png" = "" /\ Some "A/A" = None).
Proof.
  assert (H : In (mkrow "foo_glsl.png" "A" "foo_osl.png" (Some "A/A") "foo_mdl.png" (Some "A/A"))
                 (rows_of fs_A args_full)) by (vm_compute; left; reflexivity).
  split; [exact H |].
  exact (dest2_from_inputdir2 fs_A args_full _ H).
Defined.


(** If [image1Path] does not exist and the output path is free or holds
    what [os.remove] can delete, [createDiff] never looks at [image2Path],
    which may even be [None]: it returns normally, prints exactly one
    "missing" line naming [image1Path], leaves nothing at the output path
    and writes nothing to the report. *)
Theorem createDiff_first_input_missing (a : string) (b : option string) (p : string) (s : st) :
  clearable (fs s) p ->
  exists_ (fs s) a = false ->
  fst (createDiff (Some a) b p s) = Ok tt /\
  logs (snd (createDiff (Some a) b p s)) = (logs s ++ [("Image diff input missing: " ++ a)%string])%list /\
  exists_ (fs (snd (createDiff (Some a) b p s))) p = false /\
  out (snd (createDiff (Some a) b p s)) = out s.
Proof.
  intros Hcl Ha.
  pose proof (clear_spec p s Hcl) as [Hok1 [Hl1 [Ho1 [Hn1 _]]]].
  assert (Ea : exists_ (fs (snd (remove_if_exists p s))) a = false).
  { rewrite (clear_keeps_exists p a s Hcl); [exact Ha | congruence]. }
  destruct (remove_if_exists p s) as [r1 s1] eqn:E1.
  simpl in *. subst r1.
  assert (E : createDiff (Some a) b p s = print ("Image diff input missing: " ++ a) s1).
  { unfold createDiff, try_except, createDiff_try, bind at 1. rewrite E1.
    unfold path_exists, bind, get_fs, ret. simpl. rewrite Ea. reflexivity. }
  rewrite E. simpl. unfold exists_. rewrite Hn1. repeat split; congruence.
Qed.

Lemma createDiff_first_input_missing_witness :
  clearable (fs (start fs_locked)) "d2.png" /\
  exists_ (fs (start fs_locked)) "missing.png" = false /\
  (fst (createDiff (Some "missing.png") None "d2.png" (start fs_locked)) = Ok tt /\
   logs (snd (createDiff (Some "missing.png") None "d2.png" (start fs_locked)))
     = (logs (start fs_locked) ++ [("Image diff input missing: " ++ "missing.png")%string])%list /\
   exists_ (fs (snd (createDiff (Some "missing.png") None "d2.png" (start fs_locked)))) "d2.png"
     = false /\
   out (snd (createDiff (Some "missing.png") None "d2.png" (start fs_locked)))
     = out (start fs_locked)).
Proof.
  assert (H1 : clearable (fs (start fs_locked)) "d2.png") by (left; vm_compute; reflexivity).
  assert (H2 : exists_ (fs (start fs_locked)) "missing.png" = false) by (vm_compute; reflexivity).
  split; [exact H1 |]. split; [exact H2 |].
  exact (createDiff_first_input_missing "missing.png" None "d2.png" (start fs_locked) H1 H2).
Defined.

(** A file at the output path that [os.remove] cannot delete (its
    directory is not writable) makes [createDiff] raise, whatever the
    inputs: line 18 raises, and the handler raises again at line 34 before
    printing anything. The call changes nothing. *)
Theorem createDiff_undeletable_output_raises (a b : option string) (p : string) (s : st)
  (m : Z) (d : fdata) :
  stat (fs s) p = Some (File m d) ->
  remove (fs s) p = None ->
  createDiff a b p s = (Exc OSError, s).
Proof.
  intros Hst Hr.
  unfold createDiff, try_except, createDiff_try, createDiff_except, remove_if_exists,
    path_exists, os_remove, bind, get_fs, ret, raise, exists_. simpl.
  do 4 (rewrite ?Hst, ?Hr; cbn beta iota zeta). reflexivity.
Qed.

Lemma createDiff_undeletable_output_raises_witness :
  stat (fs (start fs_locked)) "d.png" = Some (File 2 (FImg 4 4)) /\
  remove (fs (start fs_locked)) "d.png" = None /\
  createDiff (Some "in.png") (Some "in.png") "d.png" (start fs_locked)
    = (Exc OSError, start fs_locked).
Proof.
  assert (H1 : stat (fs (start fs_locked)) "d.png" = Some (File 2 (FImg 4 4)))
    by (vm_compute; reflexivity).
  assert (H2 : remove (fs (start fs_locked)) "d.png" = None) by (vm_compute; reflexivity).
  split; [exact H1 |]. split; [exact H2 |].
  exact (createDiff_undeletable_output_raises (Some "in.png") (Some "in.png") "d.png"
           (start fs_locked) 2 (FImg 4 4) H1 H2).
Defined.
